(** * Lap ingestion and feature engineering: a shallow embedding

    The development follows the two scripts of the repository:

    - [src/data/ingest_data.py]: [enrich_laps_with_weather] and
      [process_season] (module [Ingest]), [setup_directories] and the
      [__main__] block (module [IngestScript]);
    - [src/features/build_features.py]: the [FeatureEngineer] class
      (module [Features]).

    Conventions of the embedding.

    - A pandas [DataFrame] is the list of its rows, in row order; a row is a
      record with one field per column.
    - A float64 cell is an exact rational ([Q]); a cell that may be missing
      ([NaN], [NaT], [None]) is an [option], with [None] for the missing
      value.  A timedelta is its number of seconds, so [dt.total_seconds()]
      is the identity.
    - A Python exception is a constructor of [Exn]; code that may raise
      returns a [result].
    - On a table without rows the pandas operations are taken to behave as
      the list operations do: they return a table without rows.
    - The methods of [FeatureEngineer] mutate [self.df], read and write the
      disk and log; they are computations of the state and error monad [M]
      over [World].
    - Rounding is outside the exact model; module [Binary64] evaluates the
      formulas on the numbers the specification quotes with the binary64
      floats of the kernel. *)

From Stdlib Require Import QArith ZArith List String Bool Lia Lqa.
From Stdlib Require Import Sorted Qminmax.
From Stdlib Require PrimFloat.
From Stdlib Require Import DecimalString DecimalZ.

Set Warnings "-inexact-float".
Import ListNotations.

Open Scope Q_scope.

(** ** Exceptions and results *)

(** [SourceError] stands for the exceptions of the data provider and of
    the parquet reader. *)
Inductive Exn : Type :=
| ValueError
| KeyError
| FileNotFoundError
| AttributeError
| SourceError.

Inductive result (A : Type) : Type :=
| Ok (a : A)
| Raise (e : Exn).

Arguments Ok {A} a.
Arguments Raise {A} e.

Fixpoint mapM {A B : Type} (f : A -> result B) (l : list A) : result (list B) :=
  match l with
  | [] => Ok []
  | a :: l' =>
      match f a with
      | Raise e => Raise e
      | Ok b =>
          match mapM f l' with
          | Raise e => Raise e
          | Ok bs => Ok (b :: bs)
          end
      end
  end.

(** ** Comparisons on float cells *)

Definition Qlt_bool (x y : Q) : bool := negb (Qle_bool y x).

(** [a > b] on cells that may be [NaN]: every comparison with [NaN] is
    [False]. *)
Definition gt_cell (a b : option Q) : bool :=
  match a, b with
  | Some x, Some y => Qlt_bool y x
  | _, _ => false
  end.

(** ** numpy *)

Module Numpy.

(** The search of [np.interp] inside the sample range: with
    [xp[j] = x0 <= x], walk to the last index [j] with [xp[j] <= x] (what
    the binary search of numpy returns on increasing [xp]) and evaluate
    the segment that starts there. *)
Fixpoint interp_from (x x0 f0 : Q) (rest : list (Q * Q)) : Q :=
  match rest with
  | [] => f0
  | (x1, f1) :: rest' =>
      if Qle_bool x1 x then interp_from x x1 f1 rest'
      else if Qeq_bool x0 x then f0
      else (f1 - f0) / (x1 - x0) * (x - x0) + f0
  end.

(** [np.interp(x, xp, fp)] at one abscissa, with the default
    [left = fp[0]] and [right = fp[-1]]. *)
Definition interp1 (x : Q) (xp fp : list Q) : result Q :=
  if negb (Nat.eqb (List.length xp) (List.length fp)) then Raise ValueError
  else
    match combine xp fp with
    | [] => Raise ValueError
    | (x0, f0) :: rest =>
        let (xn, fn) := last rest (x0, f0) in
        if Qlt_bool xn x then Ok fn
        else if Qlt_bool x x0 then Ok f0
        else Ok (interp_from x x0 f0 rest)
    end.

(** [np.interp] on an array of abscissas. *)
Definition interp (xs xp fp : list Q) : result (list Q) :=
  if negb (Nat.eqb (List.length xp) (List.length fp)) then Raise ValueError
  else
    match xp with
    | [] => Raise ValueError
    | _ :: _ => mapM (fun x => interp1 x xp fp) xs
    end.

End Numpy.

(** ** The data provider (fastf1) *)

Module FastF1.

(** One row of [session.weather_data]. *)
Module Weather.
Record Sample : Type := mkSample {
  Time : Q;
  AirTemp : Q;
  TrackTemp : Q;
  Humidity : Q;
  Rainfall : Q
}.
End Weather.

(** One row of [session.laps], with the columns the scripts read. *)
Module Laps.
Record Lap : Type := mkLap {
  Time : Q;
  Driver : string;
  LapTime : option Q;
  LapNumber : Q;
  Stint : Q;
  PitOutTime : option Q;
  PitInTime : option Q;
  Compound : option string;
  TyreLife : option Q;
  FreshTyre : bool;
  Team : string;
  TrackStatus : string;
  IsAccurate : bool
}.
End Laps.

Record Session : Type := mkSession {
  laps : list Laps.Lap;
  weather_data : list Weather.Sample
}.

(** [Laps.pick_accurate()]: the laps whose [IsAccurate] flag is set. *)
Definition pick_accurate (l : list Laps.Lap) : list Laps.Lap :=
  filter Laps.IsAccurate l.

Definition isnull {A : Type} (c : option A) : bool :=
  match c with
  | None => true
  | Some _ => false
  end.

(** [Laps.pick_wo_box()]: the laps that are neither in-laps nor
    out-laps. *)
Definition wo_box (l : Laps.Lap) : bool :=
  isnull (Laps.PitInTime l) && isnull (Laps.PitOutTime l).

Definition pick_wo_box (l : list Laps.Lap) : list Laps.Lap :=
  filter wo_box l.

(** A row of the event schedule. *)
Module Schedule.
Record Event : Type := mkEvent {
  EventFormat : string;
  RoundNumber : Z;
  EventName : string;
  Location : string
}.
End Schedule.

(** The two queries of the provider: the schedule of a year, and the
    loaded race session of a round, which may fail. *)
Record Provider : Type := mkProvider {
  get_event_schedule : Z -> list Schedule.Event;
  get_session : Z -> Z -> result Session
}.

End FastF1.

(** ** The season table and the training table *)

(** A row of the tables the two scripts exchange: the columns of
    [keep_cols], [LapTimeSeconds], and the three columns
    [FeatureEngineer] adds. *)
Record Row : Type := mkRow {
  Driver : string;
  LapTime : option Q;
  LapNumber : option Q;
  Stint : Q;
  PitOutTime : option Q;
  PitInTime : option Q;
  Compound : option string;
  TyreLife : option Q;
  FreshTyre : bool;
  Team : string;
  Year : option Z;
  RoundNumber : Z;
  EventName : option string;
  CircuitLocation : string;
  AirTemp : option Q;
  TrackTemp : option Q;
  Humidity : option Q;
  Rainfall : option Q;
  TrackStatus : string;
  LapTimeSeconds : option Q;
  FuelMass : option Q;
  Compound_Softness : option Z;
  TyreAge : option Z
}.

Definition DataFrame : Type := list Row.

(** ** ingest_data.py *)

Module Ingest.

Import FastF1.

(** A lap of [session.laps] after the loop of
    [enrich_laps_with_weather] has assigned the four weather columns. *)
Record EnrichedLap : Type := mkEnriched {
  lap : Laps.Lap;
  TimeSec : Q;
  E_AirTemp : Q;
  E_TrackTemp : Q;
  E_Humidity : Q;
  E_Rainfall : Q
}.

Fixpoint zip_enriched (ls : list Laps.Lap) (a t h r : list Q)
  : list EnrichedLap :=
  match ls, a, t, h, r with
  | l :: ls', a0 :: a', t0 :: t', h0 :: h', r0 :: r' =>
      mkEnriched l (Laps.Time l) a0 t0 h0 r0 :: zip_enriched ls' a' t' h' r'
  | _, _, _, _, _ => []
  end.

(** [enrich_laps_with_weather(session)].  It reads [session.laps], the
    unfiltered lap table of the session, and returns that table with the
    interpolated columns. *)
Definition enrich_laps_with_weather (session : Session)
  : result (list EnrichedLap) :=
  let laps := FastF1.laps session in
  let weather := weather_data session in
  let w_TimeSec := map Weather.Time weather in
  let l_TimeSec := map Laps.Time laps in
  match Numpy.interp l_TimeSec w_TimeSec (map Weather.AirTemp weather) with
  | Raise e => Raise e
  | Ok air =>
  match Numpy.interp l_TimeSec w_TimeSec (map Weather.TrackTemp weather) with
  | Raise e => Raise e
  | Ok track =>
  match Numpy.interp l_TimeSec w_TimeSec (map Weather.Humidity weather) with
  | Raise e => Raise e
  | Ok hum =>
  match Numpy.interp l_TimeSec w_TimeSec (map Weather.Rainfall weather) with
  | Raise e => Raise e
  | Ok rain => Ok (zip_enriched laps air track hum rain)
  end end end end.

(** Steps 3 and 4 of the loop body: the context columns are assigned and
    the columns of [keep_cols] selected. *)
Definition select_cols (year : Z) (race : Schedule.Event) (e : EnrichedLap)
  : Row :=
  let l := lap e in
  {| Driver := Laps.Driver l;
     LapTime := Laps.LapTime l;
     LapNumber := Some (Laps.LapNumber l);
     Stint := Laps.Stint l;
     PitOutTime := Laps.PitOutTime l;
     PitInTime := Laps.PitInTime l;
     Compound := Laps.Compound l;
     TyreLife := Laps.TyreLife l;
     FreshTyre := Laps.FreshTyre l;
     Team := Laps.Team l;
     Year := Some year;
     RoundNumber := Schedule.RoundNumber race;
     EventName := Some (Schedule.EventName race);
     CircuitLocation := Schedule.Location race;
     AirTemp := Some (E_AirTemp e);
     TrackTemp := Some (E_TrackTemp e);
     Humidity := Some (E_Humidity e);
     Rainfall := Some (E_Rainfall e);
     TrackStatus := Laps.TrackStatus l;
     LapTimeSeconds := None;
     FuelMass := None;
     Compound_Softness := None;
     TyreAge := None |}.

Definition is_empty {A : Type} (l : list A) : bool :=
  match l with
  | [] => true
  | _ :: _ => false
  end.

(** The body of the loop over the races: [Some] table when the round is
    appended to [all_season_laps], [None] when it is skipped ([continue],
    or an exception caught by the [except] clause). *)
Definition process_round (src : Provider) (year : Z) (race : Schedule.Event)
  : option DataFrame :=
  match get_session src year (Schedule.RoundNumber race) with
  | Raise _ => None
  | Ok session =>
      let clean_laps := pick_wo_box (pick_accurate (FastF1.laps session)) in
      if is_empty clean_laps then None
      else
        match enrich_laps_with_weather session with
        | Raise _ => None
        | Ok clean_laps => Some (map (select_cols year race) clean_laps)
        end
  end.

Definition is_race (e : Schedule.Event) : bool :=
  negb (String.eqb (Schedule.EventFormat e) "testing").

Fixpoint collect_rounds (src : Provider) (year : Z)
    (races : list Schedule.Event)
  : list DataFrame :=
  match races with
  | [] => []
  | race :: races' =>
      match process_round src year race with
      | Some df => df :: collect_rounds src year races'
      | None => collect_rounds src year races'
      end
  end.

Definition with_LapTimeSeconds (r : Row) : Row :=
  {| Driver := Driver r; LapTime := LapTime r; LapNumber := LapNumber r;
     Stint := Stint r; PitOutTime := PitOutTime r; PitInTime := PitInTime r;
     Compound := Compound r; TyreLife := TyreLife r;
     FreshTyre := FreshTyre r; Team := Team r; Year := Year r;
     RoundNumber := RoundNumber r; EventName := EventName r;
     CircuitLocation := CircuitLocation r; AirTemp := AirTemp r;
     TrackTemp := TrackTemp r; Humidity := Humidity r;
     Rainfall := Rainfall r; TrackStatus := TrackStatus r;
     LapTimeSeconds := LapTime r;
     FuelMass := FuelMass r; Compound_Softness := Compound_Softness r;
     TyreAge := TyreAge r |}.

(** [process_season(year)]: [None] when no round was appended. *)
Definition process_season (src : Provider) (year : Z) : option DataFrame :=
  let schedule := get_event_schedule src year in
  let races := filter is_race schedule in
  let all_season_laps := collect_rounds src year races in
  if is_empty all_season_laps then None
  else Some (map with_LapTimeSeconds (List.concat all_season_laps)).

End Ingest.

(** ** pandas: group-by, aggregations and cell arithmetic *)

Module Pandas.

(** The group key [(Year, EventName)] of [groupby(['Year', 'EventName'])]. *)
Definition Key : Type := (Z * string)%type.

Definition key_eqb (k1 k2 : Key) : bool :=
  Z.eqb (fst k1) (fst k2) && String.eqb (snd k1) (snd k2).

(** The key cells of a row; [None] when one of them is missing.  With the
    default [dropna=True] such a row belongs to no group. *)
Definition row_key (r : Row) : option Key :=
  match Year r, EventName r with
  | Some y, Some e => Some (y, e)
  | _, _ => None
  end.

Definition in_group (k : Key) (r : Row) : bool :=
  match row_key r with
  | Some k' => key_eqb k k'
  | None => false
  end.

Definition group (df : DataFrame) (k : Key) : DataFrame :=
  filter (in_group k) df.

(** The distinct keys of a table. *)
Fixpoint group_keys (df : DataFrame) : list Key :=
  match df with
  | [] => []
  | r :: df' =>
      let ks := group_keys df' in
      match row_key r with
      | Some k => if existsb (key_eqb k) ks then ks else k :: ks
      | None => ks
      end
  end.

(** The values of a column that are not missing ([skipna]). *)
Fixpoint dropna {A : Type} (l : list (option A)) : list A :=
  match l with
  | [] => []
  | Some a :: l' => a :: dropna l'
  | None :: l' => dropna l'
  end.

(** [df.groupby(['Year', 'EventName'])[col].agg()]: one entry per key,
    the aggregate of the non-missing cells of the group. *)
Definition groupby_agg (col : Row -> option Q) (agg : list Q -> option Q)
    (df : DataFrame) : list (Key * option Q) :=
  map (fun k => (k, agg (dropna (map col (group df k))))) (group_keys df).

Fixpoint lookup {V : Type} (d : list (Key * V)) (k : Key) : option V :=
  match d with
  | [] => None
  | (k', v) :: d' => if key_eqb k k' then Some v else lookup d' k
  end.

(** [d.get(key, default)] on the dictionary of a group-by result; a key
    tuple with a missing component is in no dictionary. *)
Definition dict_get {V : Type} (d : list (Key * V)) (k : option Key)
    (default : V) : V :=
  match k with
  | Some k =>
      match lookup d k with
      | Some v => v
      | None => default
      end
  | None => default
  end.

(** [s.loc[key]] on a group-by result: [KeyError] for an absent key. *)
Definition loc {V : Type} (s : list (Key * V)) (k : option Key) : result V :=
  match k with
  | Some k =>
      match lookup s k with
      | Some v => Ok v
      | None => Raise KeyError
      end
  | None => Raise KeyError
  end.

(** [max()] of a column. *)
Fixpoint list_max (l : list Q) : option Q :=
  match l with
  | [] => None
  | x :: l' =>
      match list_max l' with
      | None => Some x
      | Some m => Some (if Qlt_bool m x then x else m)
      end
  end.

Fixpoint insert_sorted (x : Q) (l : list Q) : list Q :=
  match l with
  | [] => [x]
  | y :: l' => if Qle_bool x y then x :: l else y :: insert_sorted x l'
  end.

Definition sort (l : list Q) : list Q := fold_right insert_sorted [] l.

(** [median()] of a column: the middle value of the sorted values, the
    mean of the two middle values when their number is even, missing when
    there is none. *)
Definition median (l : list Q) : option Q :=
  let s := sort l in
  let n := List.length s in
  match n with
  | O => None
  | _ =>
      if Nat.odd n then Some (nth (n / 2) s 0)
      else Some ((nth (n / 2 - 1) s 0 + nth (n / 2) s 0) / 2)
  end.

(** [s.clip(lower=lo)]. *)
Definition clip_lower (lo : Q) (c : option Q) : option Q :=
  match c with
  | Some x => Some (if Qlt_bool x lo then lo else x)
  | None => None
  end.

(** [s.fillna(v)]. *)
Definition fillna {A : Type} (v : A) (c : option A) : A :=
  match c with
  | Some x => x
  | None => v
  end.

(** [astype(int)] on a float without missing value: truncation toward
    zero. *)
Definition astype_int (q : Q) : Z := Z.quot (Qnum q) (Zpos (Qden q)).

(** [df[mask]] with a boolean mask. *)
Fixpoint select_mask {A : Type} (df : list A) (mask : list bool) : list A :=
  match df, mask with
  | r :: df', b :: mask' =>
      if b then r :: select_mask df' mask' else select_mask df' mask'
  | _, _ => []
  end.

End Pandas.

(** ** Dictionaries with string keys *)

Module Dict.

(** The entries in insertion order; a key has at most one entry when the
    list is built with [put]. *)
Fixpoint find {V : Type} (name : string) (l : list (string * V)) : option V :=
  match l with
  | [] => None
  | (n, v) :: l' => if String.eqb name n then Some v else find name l'
  end.

(** Replaces the entry of that name where it stands, or adds it. *)
Fixpoint put {V : Type} (name : string) (v : V) (l : list (string * V))
  : list (string * V) :=
  match l with
  | [] => [(name, v)]
  | (n, v') :: l' =>
      if String.eqb name n then (n, v) :: l' else (n, v') :: put name v l'
  end.

End Dict.

(** ** The disk *)

Module OS.

(** What a directory entry holds: a parquet table, or anything else. *)
Inductive Content : Type :=
| Parquet (table : DataFrame)
| Other.

(** A directory lists its entries in the order of [os.listdir]. *)
Definition Directory : Type := list (string * Content).

Definition Disk : Type := list (string * Directory).

(** [os.listdir(path)]. *)
Definition listdir (d : Disk) (path : string) : result (list string) :=
  match Dict.find path d with
  | Some dir => Ok (map fst dir)
  | None => Raise FileNotFoundError
  end.

(** [os.makedirs(path, exist_ok=True)]. *)
Definition makedirs (d : Disk) (path : string) : Disk :=
  match Dict.find path d with
  | Some _ => d
  | None => Dict.put path [] d
  end.

(** [pd.read_parquet(os.path.join(path, file))]. *)
Definition read_parquet (d : Disk) (path file : string) : result DataFrame :=
  match Dict.find path d with
  | None => Raise FileNotFoundError
  | Some dir =>
      match Dict.find file dir with
      | Some (Parquet t) => Ok t
      | Some Other => Raise SourceError
      | None => Raise FileNotFoundError
      end
  end.

(** [df.to_parquet(os.path.join(path, file), index=False)]. *)
Definition to_parquet (d : Disk) (path file : string) (df : DataFrame)
  : result Disk :=
  match Dict.find path d with
  | None => Raise FileNotFoundError
  | Some dir => Ok (Dict.put path (Dict.put file (Parquet df) dir) d)
  end.

(** [s.endswith(suffix)]. *)
Definition endswith (s suffix : string) : bool :=
  let n := String.length s in
  let m := String.length suffix in
  Nat.leb m n && String.eqb (substring (n - m) m s) suffix.

End OS.

(** ** ingest_data.py: the script *)

Module IngestScript.

Definition CACHE_DIR : string := "data/cache".
Definition OUTPUT_DIR : string := "data/raw".
Definition YEARS : list Z := [2022; 2023; 2024]%Z.

(** [setup_directories()].  The cache of the provider that the last line
    enables holds no table of the scripts; the queries of the provider are
    the functions of [FastF1.Provider]. *)
Definition setup_directories (d : OS.Disk) : OS.Disk :=
  OS.makedirs (OS.makedirs d CACHE_DIR) OUTPUT_DIR.

(** [str(year)]: the decimal digits, after a minus sign for a negative
    number. *)
Definition str (n : Z) : string := NilZero.string_of_int (Z.to_int n).

(** The file of [f"{OUTPUT_DIR}/f1_laps_{year}.parquet"]. *)
Definition output_file (year : Z) : string :=
  ("f1_laps_" ++ str year ++ ".parquet")%string.

(** The loop over the years of the [__main__] block. *)
Fixpoint ingest_years (src : FastF1.Provider) (years : list Z) (d : OS.Disk)
  : result OS.Disk :=
  match years with
  | [] => Ok d
  | year :: years' =>
      match Ingest.process_season src year with
      | Some df =>
          match OS.to_parquet d OUTPUT_DIR (output_file year) df with
          | Raise e => Raise e
          | Ok d' => ingest_years src years' d'
          end
      | None => ingest_years src years' d
      end
  end.

(** The [__main__] block. *)
Definition main (src : FastF1.Provider) (d : OS.Disk) : result OS.Disk :=
  ingest_years src YEARS (setup_directories d).

End IngestScript.

(** ** build_features.py *)

Module Features.

Import Pandas.

Definition RAW_DATA_PATH : string := "data/raw".
Definition PROCESSED_DATA_PATH : string := "data/processed".
Definition OUTPUT_FILE : string := "f1_training_data.parquet".

(** *** Column assignments *)

Definition set_FuelMass (v : option Q) (r : Row) : Row :=
  {| Driver := Driver r; LapTime := LapTime r; LapNumber := LapNumber r;
     Stint := Stint r; PitOutTime := PitOutTime r; PitInTime := PitInTime r;
     Compound := Compound r; TyreLife := TyreLife r;
     FreshTyre := FreshTyre r; Team := Team r; Year := Year r;
     RoundNumber := RoundNumber r; EventName := EventName r;
     CircuitLocation := CircuitLocation r; AirTemp := AirTemp r;
     TrackTemp := TrackTemp r; Humidity := Humidity r;
     Rainfall := Rainfall r; TrackStatus := TrackStatus r;
     LapTimeSeconds := LapTimeSeconds r;
     FuelMass := v; Compound_Softness := Compound_Softness r;
     TyreAge := TyreAge r |}.

Definition set_Compound_Softness (v : option Z) (r : Row) : Row :=
  {| Driver := Driver r; LapTime := LapTime r; LapNumber := LapNumber r;
     Stint := Stint r; PitOutTime := PitOutTime r; PitInTime := PitInTime r;
     Compound := Compound r; TyreLife := TyreLife r;
     FreshTyre := FreshTyre r; Team := Team r; Year := Year r;
     RoundNumber := RoundNumber r; EventName := EventName r;
     CircuitLocation := CircuitLocation r; AirTemp := AirTemp r;
     TrackTemp := TrackTemp r; Humidity := Humidity r;
     Rainfall := Rainfall r; TrackStatus := TrackStatus r;
     LapTimeSeconds := LapTimeSeconds r;
     FuelMass := FuelMass r; Compound_Softness := v;
     TyreAge := TyreAge r |}.

Definition set_TyreAge (v : option Z) (r : Row) : Row :=
  {| Driver := Driver r; LapTime := LapTime r; LapNumber := LapNumber r;
     Stint := Stint r; PitOutTime := PitOutTime r; PitInTime := PitInTime r;
     Compound := Compound r; TyreLife := TyreLife r;
     FreshTyre := FreshTyre r; Team := Team r; Year := Year r;
     RoundNumber := RoundNumber r; EventName := EventName r;
     CircuitLocation := CircuitLocation r; AirTemp := AirTemp r;
     TrackTemp := TrackTemp r; Humidity := Humidity r;
     Rainfall := Rainfall r; TrackStatus := TrackStatus r;
     LapTimeSeconds := LapTimeSeconds r;
     FuelMass := FuelMass r; Compound_Softness := Compound_Softness r;
     TyreAge := v |}.

Definition set_TrackTemp (v : option Q) (r : Row) : Row :=
  {| Driver := Driver r; LapTime := LapTime r; LapNumber := LapNumber r;
     Stint := Stint r; PitOutTime := PitOutTime r; PitInTime := PitInTime r;
     Compound := Compound r; TyreLife := TyreLife r;
     FreshTyre := FreshTyre r; Team := Team r; Year := Year r;
     RoundNumber := RoundNumber r; EventName := EventName r;
     CircuitLocation := CircuitLocation r; AirTemp := AirTemp r;
     TrackTemp := v; Humidity := Humidity r;
     Rainfall := Rainfall r; TrackStatus := TrackStatus r;
     LapTimeSeconds := LapTimeSeconds r;
     FuelMass := FuelMass r; Compound_Softness := Compound_Softness r;
     TyreAge := TyreAge r |}.

(** *** calculate_fuel_mass *)

Definition race_lengths (df : DataFrame) : list (Key * option Q) :=
  groupby_agg LapNumber list_max df.

(** The closure [get_fuel(row)], over the dictionary it captures. *)
Definition get_fuel (race_lengths : list (Key * option Q)) (row : Row)
  : option Q :=
  let total_laps := dict_get race_lengths (row_key row) (Some 55) in
  match total_laps, LapNumber row with
  | Some t, Some l =>
      let laps_remaining := t - l in
      Some (laps_remaining * 1.7 + 5)
  | _, _ => None
  end.

Definition calculate_fuel_mass_df (df : DataFrame) : DataFrame :=
  let race_lengths := race_lengths df in
  let df1 := map (fun row => set_FuelMass (get_fuel race_lengths row) row) df in
  map (fun row => set_FuelMass (clip_lower 2.0 (FuelMass row)) row) df1.

(** *** encode_physics_features *)

Definition compound_map : list (string * Z) :=
  [("HARD"%string, 1%Z); ("MEDIUM"%string, 2%Z); ("SOFT"%string, 3%Z);
   ("INTERMEDIATE"%string, 0%Z); ("WET"%string, 0%Z)].

(** [Series.map(compound_map)]: a missing or unmapped token gives a
    missing value. *)
Definition map_compound (c : option string) : option Z :=
  match c with
  | Some s => Dict.find s compound_map
  | None => None
  end.

(** [Compound_Softness > 0], false on a missing value. *)
Definition softness_positive (r : Row) : bool :=
  match Compound_Softness r with
  | Some s => Z.ltb 0 s
  | None => false
  end.

(** The [transform] of the [TrackTemp] column: within a group the missing
    cells take the median of the group; a row in no group gets a missing
    value. *)
Definition fill_TrackTemp (df : DataFrame) (r : Row) : option Q :=
  match row_key r with
  | Some k =>
      match TrackTemp r with
      | Some t => Some t
      | None => median (dropna (map TrackTemp (group df k)))
      end
  | None => None
  end.

(** The table and the number of laps the method logs as dropped. *)
Definition encode_physics_features_df (df : DataFrame) : DataFrame * nat :=
  let df1 :=
    map (fun r => set_Compound_Softness (map_compound (Compound r)) r) df in
  let initial_count := List.length df1 in
  let df2 := filter softness_positive df1 in
  let dropped := (initial_count - List.length df2)%nat in
  let df3 :=
    map (fun r => set_TyreAge (Some (astype_int (fillna 1 (TyreLife r)))) r)
        df2 in
  let df4 := map (fun r => set_TrackTemp (fill_TrackTemp df3 r) r) df3 in
  (df4, dropped).

(** *** create_target_variable *)

Definition race_medians (df : DataFrame) : list (Key * option Q) :=
  groupby_agg LapTimeSeconds median df.

Definition mul_cell (c : option Q) (k : Q) : option Q :=
  match c with
  | Some x => Some (x * k)
  | None => None
  end.

(** The closure [is_outlier(row)], over the series it captures. *)
Definition is_outlier (race_medians : list (Key * option Q)) (row : Row)
  : result bool :=
  match loc race_medians (row_key row) with
  | Raise e => Raise e
  | Ok median_pace =>
      Ok (gt_cell (LapTimeSeconds row) (mul_cell median_pace 1.20))
  end.

Definition count_true (l : list bool) : nat :=
  List.length (filter (fun b => b) l).

(** The table and the number of outliers the method logs. *)
Definition create_target_variable_df (df : DataFrame)
  : result (DataFrame * nat) :=
  let race_medians := race_medians df in
  match mapM (is_outlier race_medians) df with
  | Raise e => Raise e
  | Ok outliers => Ok (select_mask df (map negb outliers), count_true outliers)
  end.

(** *** The object, the disk and the log *)

Inductive LogMsg : Type :=
| Loaded (file : string)
| TotalRawSamples (n : nat)
| EngineeredFuelMass
| DroppedWetInter (n : nat)
| EngineeredPhysics
| RemovedOutliers (n : nat)
| Saved (path file : string) (n : nat).

Record World : Type := mkWorld {
  self_df : option DataFrame;
  disk : OS.Disk;
  log : list LogMsg
}.

Definition M (A : Type) : Type := World -> result (A * World).

Definition ret {A : Type} (a : A) : M A := fun w => Ok (a, w).

Definition bind {A B : Type} (m : M A) (f : A -> M B) : M B :=
  fun w =>
    match m w with
    | Raise e => Raise e
    | Ok (a, w') => f a w'
    end.

Definition raise {A : Type} (e : Exn) : M A := fun _ => Raise e.

Definition lift {A : Type} (r : result A) : M A :=
  fun w =>
    match r with
    | Raise e => Raise e
    | Ok a => Ok (a, w)
    end.

Notation "x <- m ;; k" := (bind m (fun x => k))
  (at level 61, m at next level, right associativity).
Notation "m ;;; k" := (bind m (fun _ => k))
  (at level 61, right associativity).

(** Reading [self.df]; the attribute is [None] before [load_raw_data]. *)
Definition get_df : M DataFrame :=
  fun w =>
    match self_df w with
    | Some df => Ok (df, w)
    | None => Raise AttributeError
    end.

Definition set_df (df : DataFrame) : M unit :=
  fun w => Ok (tt, mkWorld (Some df) (disk w) (log w)).

Definition get_disk : M OS.Disk := fun w => Ok (disk w, w).

Definition set_disk (d : OS.Disk) : M unit :=
  fun w => Ok (tt, mkWorld (self_df w) d (log w)).

Definition logging_info (m : LogMsg) : M unit :=
  fun w => Ok (tt, mkWorld (self_df w) (disk w) (log w ++ [m])).

(** The loop of [load_raw_data] over the files. *)
Fixpoint read_files (files : list string) : M (list DataFrame) :=
  match files with
  | [] => ret []
  | file :: files' =>
      d <- get_disk ;;
      t <- lift (OS.read_parquet d RAW_DATA_PATH file) ;;
      logging_info (Loaded file) ;;;
      dfs <- read_files files' ;;
      ret (t :: dfs)
  end.

Definition load_raw_data : M unit :=
  d <- get_disk ;;
  names <- lift (OS.listdir d RAW_DATA_PATH) ;;
  let files := filter (fun f => OS.endswith f ".parquet") names in
  if Ingest.is_empty files then raise FileNotFoundError
  else
    dfs <- read_files files ;;
    set_df (List.concat dfs) ;;;
    df <- get_df ;;
    logging_info (TotalRawSamples (List.length df)).

Definition calculate_fuel_mass : M unit :=
  df <- get_df ;;
  set_df (calculate_fuel_mass_df df) ;;;
  logging_info EngineeredFuelMass.

Definition encode_physics_features : M unit :=
  df <- get_df ;;
  let (df', dropped) := encode_physics_features_df df in
  set_df df' ;;;
  logging_info (DroppedWetInter dropped) ;;;
  logging_info EngineeredPhysics.

Definition create_target_variable : M unit :=
  df <- get_df ;;
  res <- lift (create_target_variable_df df) ;;
  set_df (fst res) ;;;
  logging_info (RemovedOutliers (snd res)).

Definition save_processed_data : M unit :=
  d <- get_disk ;;
  set_disk (OS.makedirs d PROCESSED_DATA_PATH) ;;;
  df <- get_df ;;
  d' <- get_disk ;;
  d'' <- lift (OS.to_parquet d' PROCESSED_DATA_PATH OUTPUT_FILE df) ;;
  set_disk d'' ;;;
  logging_info (Saved PROCESSED_DATA_PATH OUTPUT_FILE (List.length df)).

(** The [__main__] block, on a fresh [FeatureEngineer]. *)
Definition run : M unit :=
  load_raw_data ;;;
  calculate_fuel_mass ;;;
  encode_physics_features ;;;
  create_target_variable ;;;
  save_processed_data.

Definition fresh (d : OS.Disk) : World := mkWorld None d [].

(** *** The run as a function of the disk *)

(** What a successful run appends to the log. *)
Definition run_log (files : list string) (raw : DataFrame)
    (dropped removed : nat) (out : DataFrame) : list LogMsg :=
  map Loaded files ++
  [TotalRawSamples (List.length raw); EngineeredFuelMass;
   DroppedWetInter dropped; EngineeredPhysics; RemovedOutliers removed;
   Saved PROCESSED_DATA_PATH OUTPUT_FILE (List.length out)].

(** The disk, the table of [self.df] and the log entries a run leaves,
    from the disk it starts on. *)
Definition run_on_disk (d : OS.Disk)
  : result (OS.Disk * DataFrame * list LogMsg) :=
  match OS.listdir d RAW_DATA_PATH with
  | Raise e => Raise e
  | Ok names =>
      let files := filter (fun f => OS.endswith f ".parquet") names in
      if Ingest.is_empty files then Raise FileNotFoundError
      else
        match mapM (OS.read_parquet d RAW_DATA_PATH) files with
        | Raise e => Raise e
        | Ok dfs =>
            let raw := List.concat dfs in
            let df1 := calculate_fuel_mass_df raw in
            let (df2, dropped) := encode_physics_features_df df1 in
            match create_target_variable_df df2 with
            | Raise e => Raise e
            | Ok (out, removed) =>
                let d1 := OS.makedirs d PROCESSED_DATA_PATH in
                match OS.to_parquet d1 PROCESSED_DATA_PATH OUTPUT_FILE out
                with
                | Raise e => Raise e
                | Ok d2 => Ok (d2, out, run_log files raw dropped removed out)
                end
            end
        end
  end.

End Features.

(** ** The formulas in binary64 *)

(** The scripts compute on float64 columns.  The three formulas whose
    values the specification quotes are repeated here on the binary64
    floats of the kernel, to evaluate them with IEEE 754 rounding. *)
Module Binary64.

Import PrimFloat.

(** The body of [get_fuel]. *)
Definition get_fuel (total_laps lap_number : float) : float :=
  ((total_laps - lap_number) * 1.7 + 5)%float.

(** [clip(lower=lo)] on one value. *)
Definition clip_lower (lo x : float) : float :=
  if (x <? lo)%float then lo else x.

(** The segment of [np.interp] between [(x0, f0)] and [(x1, f1)]. *)
Definition interp_segment (x x0 f0 x1 f1 : float) : float :=
  ((f1 - f0) / (x1 - x0) * (x - x0) + f0)%float.

(** The comparison of [is_outlier]. *)
Definition is_outlier (lap_time median_pace : float) : bool :=
  (median_pace * 1.20 <? lap_time)%float.

End Binary64.

(** ** Notions of the specification *)

Module Spec.

(** The [(time, value)] pairs of one channel of a weather series. *)
Definition series (channel : FastF1.Weather.Sample -> Q)
    (w : list FastF1.Weather.Sample) : list (Q * Q) :=
  map (fun s => (FastF1.Weather.Time s, channel s)) w.

Definition sorted_by_time (w : list FastF1.Weather.Sample) : Prop :=
  Sorted Qle (map FastF1.Weather.Time w).

(** [v] is a piecewise-linear interpolation of the samples at time [t]:
    the value of the first sample at or before its time, the value of the
    last sample at or after its time, and in between the value on the
    straight line through two consecutive samples around [t]. *)
Inductive piecewise_linear (samples : list (Q * Q)) (t v : Q) : Prop :=
| pl_left (t0 v0 : Q) (rest : list (Q * Q)) :
    samples = (t0, v0) :: rest -> t <= t0 -> v == v0 ->
    piecewise_linear samples t v
| pl_right (tn vn : Q) (front : list (Q * Q)) :
    samples = front ++ [(tn, vn)] -> tn <= t -> v == vn ->
    piecewise_linear samples t v
| pl_segment (t0 v0 t1 v1 : Q) (front rest : list (Q * Q)) :
    samples = front ++ (t0, v0) :: (t1, v1) :: rest ->
    t0 <= t -> t <= t1 -> t0 < t1 ->
    v == v0 + (v1 - v0) * ((t - t0) / (t1 - t0)) ->
    piecewise_linear samples t v.

Definition increasing_by_time (w : list FastF1.Weather.Sample) : Prop :=
  StronglySorted Qlt (map FastF1.Weather.Time w).

(** The four weather columns of an enriched lap are piecewise-linear
    interpolations of the four channels of the series at the end time of
    the lap. *)
Definition interpolated (w : list FastF1.Weather.Sample)
    (e : Ingest.EnrichedLap) : Prop :=
  let t := FastF1.Laps.Time (Ingest.lap e) in
  Ingest.TimeSec e = t /\
  piecewise_linear (series FastF1.Weather.AirTemp w) t (Ingest.E_AirTemp e) /\
  piecewise_linear (series FastF1.Weather.TrackTemp w) t
    (Ingest.E_TrackTemp e) /\
  piecewise_linear (series FastF1.Weather.Humidity w) t
    (Ingest.E_Humidity e) /\
  piecewise_linear (series FastF1.Weather.Rainfall w) t
    (Ingest.E_Rainfall e).

(** The four weather columns of an enriched lap are the only
    piecewise-linear interpolations of the four channels at the end time
    of the lap. *)
Definition determined (w : list FastF1.Weather.Sample)
    (e : Ingest.EnrichedLap) : Prop :=
  let t := FastF1.Laps.Time (Ingest.lap e) in
  forall v,
    (piecewise_linear (series FastF1.Weather.AirTemp w) t v ->
     v == Ingest.E_AirTemp e) /\
    (piecewise_linear (series FastF1.Weather.TrackTemp w) t v ->
     v == Ingest.E_TrackTemp e) /\
    (piecewise_linear (series FastF1.Weather.Humidity w) t v ->
     v == Ingest.E_Humidity e) /\
    (piecewise_linear (series FastF1.Weather.Rainfall w) t v ->
     v == Ingest.E_Rainfall e).

(** A lap that passes the filter of the ingestion: flagged accurate, and
    neither an in-lap nor an out-lap. *)
Definition clean_lap (l : FastF1.Laps.Lap) : Prop :=
  FastF1.Laps.IsAccurate l = true /\
  FastF1.Laps.PitInTime l = None /\
  FastF1.Laps.PitOutTime l = None.

(** The row of the season table comes from a clean lap of a race of the
    season. *)
Definition from_clean_lap (src : FastF1.Provider) (year : Z) (row : Row)
  : Prop :=
  exists race session e,
    In race (FastF1.get_event_schedule src year) /\
    FastF1.get_session src year (FastF1.Schedule.RoundNumber race)
      = Ok session /\
    In (Ingest.lap e) (FastF1.laps session) /\
    clean_lap (Ingest.lap e) /\
    row = Ingest.with_LapTimeSeconds (Ingest.select_cols year race e).

(** [T] is the greatest value of a column. *)
Definition is_max (T : Q) (l : list Q) : Prop :=
  In T l /\ forall x, In x l -> x <= T.

(** The total laps of the race of a row: the greatest lap number observed
    in its (season, event) group, and 55 for a row in no group. *)
Definition total_laps (df : DataFrame) (r : Row) (T : Q) : Prop :=
  match Pandas.row_key r with
  | Some k => is_max T (Pandas.dropna (map LapNumber (Pandas.group df k)))
  | None => T = 55
  end.

(** The ordinal score of a compound token: the table of the
    specification. *)
Definition score (c : option string) : option Z :=
  match c with
  | Some "HARD"%string => Some 1%Z
  | Some "MEDIUM"%string => Some 2%Z
  | Some "SOFT"%string => Some 3%Z
  | Some "INTERMEDIATE"%string => Some 0%Z
  | Some "WET"%string => Some 0%Z
  | _ => None
  end.

Definition strictly_positive (s : option Z) : Prop :=
  exists z, s = Some z /\ (0 < z)%Z.

Definition has_compound (c : string) (r : Row) : bool :=
  match Compound r with
  | Some s => String.eqb s c
  | None => false
  end.

(** The median lap time of the (season, event) group of a row, over the
    rows of the table. *)
Definition group_median (df : DataFrame) (r : Row) : option Q :=
  match Pandas.row_key r with
  | Some k =>
      Pandas.median (Pandas.dropna (map LapTimeSeconds (Pandas.group df k)))
  | None => None
  end.



End Spec.

(** ** Views of the code used in the proofs *)

(** The four weather channels of an enriched lap. *)
Definition channels (e : Ingest.EnrichedLap) : list Q :=
  [Ingest.E_AirTemp e; Ingest.E_TrackTemp e; Ingest.E_Humidity e;
   Ingest.E_Rainfall e].

(** [v] is what [np.interp] gives a lap for a channel, and a
    piecewise-linear interpolation of the channel. *)
Definition channel_value (w : list FastF1.Weather.Sample)
    (ch : FastF1.Weather.Sample -> Q) (l : FastF1.Laps.Lap) (v : Q) : Prop :=
  Numpy.interp1 (FastF1.Laps.Time l) (map FastF1.Weather.Time w) (map ch w)
  = Ok v /\
  Spec.piecewise_linear (Spec.series ch w) (FastF1.Laps.Time l) v.

(** The rows [encode_physics_features] keeps: whether the score of the
    compound is strictly positive. *)
Definition keeps (r : Row) : bool :=
  match Spec.score (Compound r) with
  | Some s => Z.ltb 0 s
  | None => false
  end.

(** The row [encode_physics_features] computes from a row it keeps; [df3]
    is the table the medians of [TrackTemp] are taken from. *)
Definition encoded (df3 : DataFrame) (r : Row) : Row :=
  let r1 := Features.set_Compound_Softness (Spec.score (Compound r)) r in
  let r3 :=
    Features.set_TyreAge
      (Some (Pandas.astype_int (Pandas.fillna 1 (TyreLife r1)))) r1 in
  Features.set_TrackTemp (Features.fill_TrackTemp df3 r3) r3.

(** The mask entry [is_outlier] computes for a row of a group. *)
Definition outlier (df : DataFrame) (r : Row) : bool :=
  gt_cell (LapTimeSeconds r)
    (Features.mul_cell (Spec.group_median df r) 1.20).

(** ** Concrete tables *)

Module Examples.

Import FastF1.

Definition lap_at (t : Q) : Laps.Lap :=
  Laps.mkLap t "VER" (Some 90) 1 1 None None (Some "HARD"%string) (Some 1)
    true "Red Bull" "1" true.

(** An in-lap that is not flagged accurate. *)
Definition in_lap : Laps.Lap :=
  Laps.mkLap 200 "VER" None 2 1 None (Some 195) (Some "HARD"%string)
    (Some 2) true "Red Bull" "4" false.

Definition sample (t v : Q) : Weather.Sample := Weather.mkSample t v v v v.

Definition weather_0_100 : list Weather.Sample :=
  [sample 0 20; sample 100 30].

Definition session_of (ls : list Laps.Lap) (w : list Weather.Sample)
  : Session := mkSession ls w.

Definition monaco : Schedule.Event :=
  Schedule.mkEvent "conventional" 6%Z "Monaco Grand Prix" "Monaco".

(** A provider with one race, whose session has one clean lap and one
    in-lap. *)
Definition one_race : Provider :=
  mkProvider (fun _ => [monaco])
    (fun _ _ => Ok (session_of [lap_at 50; in_lap] weather_0_100)).

(** A row of a season table. *)
Definition row (year : Z) (event : string) (lap_number : Q)
    (compound : string) (tyre_life : option Q) (seconds : Q) : Row :=
  mkRow "VER" (Some seconds) (Some lap_number) 1 None None (Some compound)
    tyre_life true "Red Bull" (Some year) 6%Z (Some event) "Monaco"
    (Some 20) (Some 35) (Some 50) (Some 0) "1" (Some seconds)
    None None None.

Definition no_event (r : Row) : Row :=
  mkRow (Driver r) (LapTime r) (LapNumber r) (Stint r) (PitOutTime r)
    (PitInTime r) (Compound r) (TyreLife r) (FreshTyre r) (Team r)
    (Year r) (RoundNumber r) None (CircuitLocation r) (AirTemp r)
    (TrackTemp r) (Humidity r) (Rainfall r) (TrackStatus r)
    (LapTimeSeconds r) (FuelMass r) (Compound_Softness r) (TyreAge r).

Definition four_compounds : DataFrame :=
  [row 2023 "Monaco Grand Prix" 10 "HARD" (Some 3) 90;
   row 2023 "Monaco Grand Prix" 11 "SOFT" (Some 4) 89;
   row 2023 "Monaco Grand Prix" 12 "WET" (Some 5) 101;
   row 2023 "Monaco Grand Prix" 13 "INTERMEDIATE" (Some 6) 99].

Definition race_of_50 : DataFrame :=
  [row 2023 "Monaco Grand Prix" 10 "HARD" (Some 3) 80;
   row 2023 "Monaco Grand Prix" 50 "HARD" (Some 43) 90;
   row 2023 "Monaco Grand Prix" 20 "HARD" (Some 13) 90;
   row 2023 "Monaco Grand Prix" 30 "HARD" (Some 23) 107;
   row 2023 "Monaco Grand Prix" 40 "HARD" (Some 33) 110].


(** A disk with one season table and a file that is not a table. *)
Definition raw_disk : OS.Disk :=
  [("data/raw"%string,
    [("f1_laps_2023.parquet"%string, OS.Parquet race_of_50);
     ("notes.txt"%string, OS.Other)])].

End Examples.

(** ** Further notions used in the properties *)

(** The channels of the weather series and the columns of the enriched
    laps they are interpolated into. *)
Definition channel_columns
  : list ((FastF1.Weather.Sample -> Q) * (Ingest.EnrichedLap -> Q)) :=
  [(FastF1.Weather.AirTemp, Ingest.E_AirTemp);
   (FastF1.Weather.TrackTemp, Ingest.E_TrackTemp);
   (FastF1.Weather.Humidity, Ingest.E_Humidity);
   (FastF1.Weather.Rainfall, Ingest.E_Rainfall)].

(** The season and the event of a row are not missing. *)
Definition has_key (r : Row) : Prop := Pandas.row_key r <> None.

(** A row after the first two column assignments of
    [encode_physics_features]: the score and the tire age. *)
Definition scored_aged (r : Row) : Row :=
  Features.set_TyreAge
    (Some (Pandas.astype_int (Pandas.fillna 1 (TyreLife r))))
    (Features.set_Compound_Softness (Spec.score (Compound r)) r).

(** * Properties *)

(** ** Results of [mapM] *)

Lemma mapM_Ok {A B : Type} (f : A -> result B) (l : list A) (bs : list B) :
  mapM f l = Ok bs <-> Forall2 (fun a b => f a = Ok b) l bs.
Proof.
  revert bs. induction l as [|a l IH]; intros bs; simpl.
  - split; intros H.
    + injection H as <-. constructor.
    + inversion H. reflexivity.
  - destruct (f a) as [b|e] eqn:Ea.
    + destruct (mapM f l) as [bs'|e] eqn:El.
      * split; intros H.
        -- injection H as <-. constructor; [exact Ea|]. apply IH. reflexivity.
        -- inversion H as [|a0 b0 l0 bs0 Hb Hl]; subst.
           rewrite Ea in Hb. injection Hb as <-.
           apply IH in Hl. injection Hl as <-. reflexivity.
      * split; intros H; [discriminate|].
        inversion H as [|a0 b0 l0 bs0 Hb Hl]; subst.
        apply IH in Hl. discriminate.
    + split; intros H; [discriminate|].
      inversion H as [|a0 b0 l0 bs0 Hb Hl]; subst. congruence.
Qed.

Lemma mapM_Ok_In {A B : Type} (f : A -> result B) (l : list A) (bs : list B)
    (a : A) :
  mapM f l = Ok bs -> In a l -> exists b, f a = Ok b.
Proof.
  intros H. apply mapM_Ok in H.
  induction H as [|a0 b l' bs' Hb _ IH]; intros Hin; [destruct Hin|].
  destruct Hin as [<-|Hin]; [exists b; exact Hb | exact (IH Hin)].
Qed.

Lemma map_ext_mapM {A B : Type} (f g : A -> result B)
    (Hfg : forall a, f a = g a) (l : list A) :
  mapM f l = mapM g l.
Proof.
  induction l as [|a l IH]; simpl; [reflexivity|]. rewrite Hfg, IH.
  reflexivity.
Qed.

Lemma mapM_total {A B : Type} (f : A -> result B) (l : list A) :
  (forall a, In a l -> exists b, f a = Ok b) ->
  exists bs, mapM f l = Ok bs.
Proof.
  induction l as [|a l IH]; intros H; simpl.
  - eexists. reflexivity.
  - destruct (H a (or_introl eq_refl)) as [b ->].
    destruct IH as [bs ->].
    + intros a' Ha'. apply H. right. exact Ha'.
    + eexists. reflexivity.
Qed.

Lemma mapM_Raise {A B : Type} (f : A -> result B) (l : list A) (e : Exn) :
  mapM f l = Raise e -> exists a, In a l /\ f a = Raise e.
Proof.
  induction l as [|a l IH]; simpl; intros H; [discriminate|].
  destruct (f a) as [b|e'] eqn:Ea.
  - destruct (mapM f l) as [bs|e''] eqn:El; [discriminate|].
    injection H as ->. destruct (IH eq_refl) as (a' & Hin & Ha').
    exists a'. split; [right; exact Hin | exact Ha'].
  - injection H as ->. exists a. split; [left; reflexivity | exact Ea].
Qed.

(** ** Comparisons *)

Lemma Qlt_bool_iff (x y : Q) : Qlt_bool x y = true <-> x < y.
Proof.
  unfold Qlt_bool. rewrite negb_true_iff.
  split; intros H.
  - apply Qnot_le_lt. intros Hle. apply Qle_bool_iff in Hle. congruence.
  - apply not_true_is_false. intros Hle. apply Qle_bool_iff in Hle.
    apply Qle_not_lt in Hle. contradiction.
Qed.

Lemma Qlt_bool_false (x y : Q) : Qlt_bool x y = false <-> y <= x.
Proof.
  unfold Qlt_bool. rewrite negb_false_iff. apply Qle_bool_iff.
Qed.

Lemma Qle_bool_false (x y : Q) : Qle_bool x y = false <-> y < x.
Proof.
  rewrite <- Qlt_bool_iff. unfold Qlt_bool.
  destruct (Qle_bool x y); simpl; split; congruence.
Qed.

(** ** [np.interp] is piecewise linear *)

Section Interp.

Import Spec.

Lemma last_cons {A : Type} (l : list A) (a d : A) :
  last (a :: l) d = last l a.
Proof.
  revert a d. induction l as [|b l IH]; intros a d; [reflexivity|].
  change (last (a :: b :: l) d) with (last (b :: l) d).
  rewrite (IH b d), (IH b a). reflexivity.
Qed.

Lemma interp_from_piecewise (x : Q) :
  forall rest x0 f0 front,
    x0 <= x ->
    x <= fst (last rest (x0, f0)) ->
    piecewise_linear (front ++ (x0, f0) :: rest) x
      (Numpy.interp_from x x0 f0 rest).
Proof.
  induction rest as [|[x1 f1] rest IH]; intros x0 f0 front Hlo Hhi.
  - simpl in *.
    apply pl_right with (tn := x0) (vn := f0) (front := front);
      [reflexivity | exact Hlo | reflexivity].
  - simpl Numpy.interp_from.
    destruct (Qle_bool x1 x) eqn:E1.
    + apply Qle_bool_iff in E1.
      replace (front ++ (x0, f0) :: (x1, f1) :: rest)
        with ((front ++ [(x0, f0)]) ++ (x1, f1) :: rest)
        by (rewrite <- app_assoc; reflexivity).
      apply IH; [exact E1|].
      rewrite last_cons in Hhi. exact Hhi.
    + apply Qle_bool_false in E1.
      destruct (Qeq_bool x0 x) eqn:E0.
      * apply Qeq_bool_iff in E0.
        apply pl_segment with (t0 := x0) (v0 := f0) (t1 := x1) (v1 := f1)
                              (front := front) (rest := rest);
          [reflexivity | exact Hlo | apply Qlt_le_weak; exact E1 | lra |].
        rewrite <- E0. field. lra.
      * apply pl_segment with (t0 := x0) (v0 := f0) (t1 := x1) (v1 := f1)
                              (front := front) (rest := rest);
          [reflexivity | exact Hlo | apply Qlt_le_weak; exact E1 | lra |].
        field. lra.
Qed.

Lemma last_decompose {A : Type} (l : list A) (d : A) :
  exists front, d :: l = front ++ [last l d].
Proof.
  revert d. induction l as [|a l IH]; intros d.
  - exists []. reflexivity.
  - destruct (IH a) as [front Hf].
    exists (d :: front). rewrite last_cons. simpl app. rewrite <- Hf.
    reflexivity.
Qed.

Lemma interp1_piecewise (x : Q) (samples : list (Q * Q)) :
  samples <> [] ->
  exists v,
    Numpy.interp1 x (map fst samples) (map snd samples) = Ok v /\
    piecewise_linear samples x v.
Proof.
  intros Hne. unfold Numpy.interp1.
  rewrite !length_map, Nat.eqb_refl. simpl negb. cbv iota.
  assert (Hc : combine (map fst samples) (map snd samples) = samples).
  { clear. induction samples as [|[a b] l IH]; simpl; [|rewrite IH];
      reflexivity. }
  rewrite Hc. destruct samples as [|[x0 f0] rest]; [congruence|].
  destruct (last rest (x0, f0)) as [xn fn] eqn:El.
  destruct (Qlt_bool xn x) eqn:En.
  - exists fn. split; [reflexivity|].
    apply Qlt_bool_iff in En.
    destruct (last_decompose rest (x0, f0)) as [front Hf].
    rewrite El in Hf.
    apply pl_right with (tn := xn) (vn := fn) (front := front);
      [exact Hf | apply Qlt_le_weak; exact En | reflexivity].
  - apply Qlt_bool_false in En.
    destruct (Qlt_bool x x0) eqn:E0.
    + exists f0. split; [reflexivity|].
      apply Qlt_bool_iff in E0.
      apply pl_left with (t0 := x0) (v0 := f0) (rest := rest);
        [reflexivity | apply Qlt_le_weak; exact E0 | reflexivity].
    + apply Qlt_bool_false in E0.
      eexists. split; [reflexivity|].
      apply (interp_from_piecewise x rest x0 f0 []); [exact E0|].
      rewrite El. exact En.
Qed.

Lemma series_fst (ch : FastF1.Weather.Sample -> Q) w :
  map fst (series ch w) = map FastF1.Weather.Time w.
Proof. unfold series. rewrite map_map. reflexivity. Qed.

Lemma series_snd (ch : FastF1.Weather.Sample -> Q) w :
  map snd (series ch w) = map ch w.
Proof. unfold series. rewrite map_map. reflexivity. Qed.

(** On a weather series that is not empty, [np.interp] gives every lap
time a piecewise-linear interpolation of the channel. *)
Lemma interp_channel (ch : FastF1.Weather.Sample -> Q)
  (w : list FastF1.Weather.Sample) (ls : list FastF1.Laps.Lap) :
w <> [] ->
exists vs,
  Numpy.interp (map FastF1.Laps.Time ls) (map FastF1.Weather.Time w)
    (map ch w) = Ok vs /\
  Forall2 (channel_value w ch) ls vs.
Proof.
intros Hne. unfold Numpy.interp.
rewrite !length_map, Nat.eqb_refl. simpl negb. cbv iota.
destruct (map FastF1.Weather.Time w) as [|t0 ts] eqn:Em.
{ destruct w; [congruence | discriminate]. }
rewrite <- Em. clear Em.
induction ls as [|l ls IH].
- exists []. split; [reflexivity | constructor].
- destruct IH as (vs & Hvs & Hall).
  destruct (interp1_piecewise (FastF1.Laps.Time l) (series ch w))
    as (v & Hv & Hpl).
  { unfold series. destruct w; [congruence | discriminate]. }
  rewrite series_fst, series_snd in Hv.
  exists (v :: vs). split.
  + simpl. rewrite Hv, Hvs. reflexivity.
  + constructor; [split|]; assumption.
Qed.

End Interp.

(** ** On increasing sample times the interpolation is determined *)

Section InterpUnique.

Import Spec.

Lemma increasing_head_lt (x0 : Q) (l : list Q) (y : Q) :
  StronglySorted Qlt (x0 :: l) -> In y l -> x0 < y.
Proof.
  intros H Hy. inversion H as [|? ? _ Hall]; subst.
  rewrite Forall_forall in Hall. apply Hall. exact Hy.
Qed.

Lemma increasing_tail (x0 : Q) (l : list Q) :
  StronglySorted Qlt (x0 :: l) -> StronglySorted Qlt l.
Proof. intros H. inversion H; assumption. Qed.

Lemma increasing_suffix (l1 l2 : list Q) :
  StronglySorted Qlt (l1 ++ l2) -> StronglySorted Qlt l2.
Proof.
  induction l1 as [|a l1 IH]; simpl; intros H; [exact H|].
  apply IH. apply increasing_tail with a. exact H.
Qed.

Lemma increasing_le_last (rest : list (Q * Q)) :
  forall x0 f0 y,
    StronglySorted Qlt (x0 :: map fst rest) ->
    In y (x0 :: map fst rest) ->
    y <= fst (last rest (x0, f0)).
Proof.
  induction rest as [|[x1 f1] rest IH]; intros x0 f0 y Hs Hy.
  - destruct Hy as [<-|[]]. apply Qle_refl.
  - rewrite last_cons. simpl map in *. destruct Hy as [<-|Hy].
    + apply Qle_trans with x1.
      * apply Qlt_le_weak. apply (increasing_head_lt x0 _ x1 Hs).
        left. reflexivity.
      * apply IH; [apply increasing_tail with x0; exact Hs|].
        left. reflexivity.
    + apply IH; [apply increasing_tail with x0; exact Hs | exact Hy].
Qed.

Lemma interp_from_at_start (t x0 f0 : Q) (rest : list (Q * Q)) :
  StronglySorted Qlt (x0 :: map fst rest) -> t == x0 ->
  Numpy.interp_from t x0 f0 rest = f0.
Proof.
  intros Hs Ht. destruct rest as [|[x1 f1] rest]; [reflexivity|].
  simpl. assert (H1 : x0 < x1)
    by (apply (increasing_head_lt x0 _ x1 Hs); left; reflexivity).
  destruct (Qle_bool x1 t) eqn:E1.
  - apply Qle_bool_iff in E1. lra.
  - destruct (Qeq_bool x0 t) eqn:E0; [reflexivity|].
    apply Qeq_bool_neq in E0. exfalso. apply E0. symmetry. exact Ht.
Qed.

Lemma interp_from_at_end (t : Q) (rest : list (Q * Q)) :
  forall x0 f0,
    StronglySorted Qlt (x0 :: map fst rest) ->
    t == fst (last rest (x0, f0)) ->
    Numpy.interp_from t x0 f0 rest = snd (last rest (x0, f0)).
Proof.
  induction rest as [|[x1 f1] rest IH]; intros x0 f0 Hs Ht; [reflexivity|].
  rewrite last_cons in *. simpl Numpy.interp_from.
  assert (H1 : x1 <= fst (last rest (x1, f1))).
  { apply increasing_le_last; [apply increasing_tail with x0; exact Hs|].
    left. reflexivity. }
  destruct (Qle_bool x1 t) eqn:E1.
  - apply IH; [apply increasing_tail with x0; exact Hs | exact Ht].
  - apply Qle_bool_false in E1. lra.
Qed.

Lemma interp_from_segment_start (t a va b vb : Q) (rest : list (Q * Q)) :
  StronglySorted Qlt (a :: b :: map fst rest) ->
  a <= t -> t <= b ->
  Numpy.interp_from t a va ((b, vb) :: rest)
  == va + (vb - va) * ((t - a) / (b - a)).
Proof.
  intros Hs Ha Hb.
  assert (Hab : a < b)
    by (apply (increasing_head_lt a _ b Hs); left; reflexivity).
  simpl. destruct (Qle_bool b t) eqn:E1.
  - apply Qle_bool_iff in E1.
    assert (Ht : t == b) by lra.
    rewrite (interp_from_at_start t b vb rest
               (increasing_tail _ _ Hs) Ht).
    rewrite Ht. field. lra.
  - destruct (Qeq_bool a t) eqn:E0.
    + apply Qeq_bool_iff in E0. rewrite <- E0. field. lra.
    + field. lra.
Qed.

Lemma interp_from_segment (t a va b vb : Q) (rest : list (Q * Q)) :
  forall front x0 f0,
    StronglySorted Qlt
      (x0 :: map fst (front ++ (a, va) :: (b, vb) :: rest)) ->
    a <= t -> t <= b ->
    Numpy.interp_from t x0 f0 (front ++ (a, va) :: (b, vb) :: rest)
    == va + (vb - va) * ((t - a) / (b - a)).
Proof.
  induction front as [|[x1 f1] front IH]; intros x0 f0 Hs Ha Hb.
  - simpl app. simpl map in Hs.
    change (Numpy.interp_from t x0 f0 ((a, va) :: (b, vb) :: rest))
      with (if Qle_bool a t
            then Numpy.interp_from t a va ((b, vb) :: rest)
            else if Qeq_bool x0 t then f0
                 else (va - f0) / (a - x0) * (t - x0) + f0).
    apply Qle_bool_iff in Ha. rewrite Ha. apply Qle_bool_iff in Ha.
    apply interp_from_segment_start; [|exact Ha | exact Hb].
    apply increasing_tail with x0. exact Hs.
  - simpl app. simpl map in Hs.
    assert (H1 : x1 < a).
    { apply (increasing_head_lt x1
               (map fst (front ++ (a, va) :: (b, vb) :: rest)));
        [apply increasing_tail with x0; exact Hs|].
      rewrite map_app. apply in_or_app. right. left. reflexivity. }
    change (Numpy.interp_from t x0 f0
              ((x1, f1) :: front ++ (a, va) :: (b, vb) :: rest))
      with (if Qle_bool x1 t
            then Numpy.interp_from t x1 f1
                   (front ++ (a, va) :: (b, vb) :: rest)
            else if Qeq_bool x0 t then f0
                 else (f1 - f0) / (x1 - x0) * (t - x0) + f0).
    assert (E1 : Qle_bool x1 t = true) by (apply Qle_bool_iff; lra).
    rewrite E1. apply IH; [|exact Ha | exact Hb].
    apply increasing_tail with x0. exact Hs.
Qed.

Lemma last_app_single {A : Type} (front : list A) (a d : A) :
  last (front ++ [a]) d = a.
Proof.
  revert d. induction front as [|b front IH]; intros d; [reflexivity|].
  simpl app. rewrite last_cons. apply IH.
Qed.

(** On sample times that increase strictly, every piecewise-linear
    interpolation of the samples at [t] is the value of [np.interp]. *)
Lemma piecewise_linear_interp1 (samples : list (Q * Q)) (t v : Q) :
  StronglySorted Qlt (map fst samples) ->
  piecewise_linear samples t v ->
  exists v',
    Numpy.interp1 t (map fst samples) (map snd samples) = Ok v' /\ v == v'.
Proof.
  intros Hs Hpl. unfold Numpy.interp1.
  rewrite !length_map, Nat.eqb_refl. simpl negb. cbv iota.
  assert (Hc : combine (map fst samples) (map snd samples) = samples).
  { clear. induction samples as [|[a b] l IH]; simpl; [|rewrite IH];
      reflexivity. }
  rewrite Hc.
  destruct Hpl as [t0 v0 rest Hsam Ht Hv
                  |tn vn front Hsam Ht Hv
                  |a va b vb front rest Hsam Ha Hb Hab Hv].
  - subst samples. simpl map in Hs.
    destruct (last rest (t0, v0)) as [xn fn] eqn:El.
    assert (Hn : t0 <= xn).
    { change xn with (fst (xn, fn)). rewrite <- El.
      apply increasing_le_last; [exact Hs | left; reflexivity]. }
    destruct (Qlt_bool xn t) eqn:En; [apply Qlt_bool_iff in En; lra|].
    destruct (Qlt_bool t t0) eqn:E0;
      [exists v0; split; [reflexivity | exact Hv]|].
    apply Qlt_bool_false in E0. eexists. split; [reflexivity|].
    rewrite (interp_from_at_start t t0 v0 rest Hs); [exact Hv | lra].
  - destruct samples as [|[x0 f0] rest0];
      [destruct front; discriminate Hsam|].
    simpl map in Hs.
    assert (El : last rest0 (x0, f0) = (tn, vn)).
    { rewrite <- (last_cons rest0 (x0, f0) (x0, f0)), Hsam.
      apply last_app_single. }
    rewrite El.
    assert (Hn : x0 <= tn).
    { change tn with (fst (tn, vn)). rewrite <- El.
      apply increasing_le_last; [exact Hs | left; reflexivity]. }
    destruct (Qlt_bool tn t) eqn:En;
      [exists vn; split; [reflexivity | exact Hv]|].
    apply Qlt_bool_false in En.
    destruct (Qlt_bool t x0) eqn:E0; [apply Qlt_bool_iff in E0; lra|].
    eexists. split; [reflexivity|].
    rewrite (interp_from_at_end t rest0 x0 f0 Hs);
      [rewrite El; exact Hv | rewrite El; simpl; lra].
  - destruct samples as [|[x0 f0] rest0];
      [destruct front; discriminate Hsam|].
    simpl map in Hs.
    destruct (last rest0 (x0, f0)) as [xn fn] eqn:El.
    assert (Hin : forall y,
               In y (map fst (front ++ (a, va) :: (b, vb) :: rest)) ->
               x0 <= y /\ y <= xn).
    { intros y Hy. rewrite <- Hsam in Hy. simpl map in Hy. split.
      - destruct Hy as [<-|Hy]; [apply Qle_refl|].
        apply Qlt_le_weak. apply (increasing_head_lt x0 _ y Hs Hy).
      - change xn with (fst (xn, fn)). rewrite <- El.
        apply increasing_le_last; [exact Hs | exact Hy]. }
    assert (Hia : x0 <= a /\ a <= xn).
    { apply Hin. rewrite map_app. apply in_or_app. right. left. reflexivity. }
    assert (Hib : x0 <= b /\ b <= xn).
    { apply Hin. rewrite map_app. apply in_or_app. right. right. left.
      reflexivity. }
    destruct (Qlt_bool xn t) eqn:En; [apply Qlt_bool_iff in En; lra|].
    destruct (Qlt_bool t x0) eqn:E0; [apply Qlt_bool_iff in E0; lra|].
    eexists. split; [reflexivity|]. rewrite Hv. symmetry.
    destruct front as [|[p1 p2] front].
    + simpl app in Hsam. injection Hsam as E1 E2 E3. subst x0 f0 rest0.
      apply interp_from_segment_start; assumption.
    + simpl app in Hsam. injection Hsam as E1 E2 E3. subst x0 f0 rest0.
      apply interp_from_segment; assumption.
Qed.

End InterpUnique.

(** ** The weather columns of the enriched laps *)

Section Enrich.

Import Spec.

Variables Pa Pt Ph Pr : FastF1.Laps.Lap -> Q -> Prop.

(** What the four column assignments give, from what the four
    interpolations give. *)
Lemma zip_enriched_columns :
  forall ls a t h r,
    Forall2 Pa ls a -> Forall2 Pt ls t ->
    Forall2 Ph ls h -> Forall2 Pr ls r ->
    map Ingest.lap (Ingest.zip_enriched ls a t h r) = ls /\
    Forall (fun e =>
              Ingest.TimeSec e = FastF1.Laps.Time (Ingest.lap e) /\
              Pa (Ingest.lap e) (Ingest.E_AirTemp e) /\
              Pt (Ingest.lap e) (Ingest.E_TrackTemp e) /\
              Ph (Ingest.lap e) (Ingest.E_Humidity e) /\
              Pr (Ingest.lap e) (Ingest.E_Rainfall e))
           (Ingest.zip_enriched ls a t h r).
Proof.
  induction ls as [|l ls IH]; intros a t h r Ha Ht Hh Hr.
  - split; [reflexivity | constructor].
  - inversion Ha as [|? a0 ? a' Ha0 Ha']; subst.
    inversion Ht as [|? t0 ? t' Ht0 Ht']; subst.
    inversion Hh as [|? h0 ? h' Hh0 Hh']; subst.
    inversion Hr as [|? r0 ? r' Hr0 Hr']; subst.
    destruct (IH a' t' h' r' Ha' Ht' Hh' Hr') as [Hmap Hall].
    simpl. split.
    + rewrite Hmap. reflexivity.
    + constructor; [|exact Hall]. simpl. repeat split; assumption.
Qed.

End Enrich.

Lemma interp_single (xs : list Q) (t v : Q) :
  Numpy.interp xs [t] [v] = Ok (map (fun _ => v) xs).
Proof.
  unfold Numpy.interp. simpl negb. cbv iota.
  apply mapM_Ok. induction xs as [|x xs IH]; simpl; constructor.
  - unfold Numpy.interp1. simpl.
    destruct (Qlt_bool t x); [reflexivity|].
    destruct (Qlt_bool x t); reflexivity.
  - exact IH.
Qed.

Lemma Forall2_const {A B : Type} (l : list A) (v : B) :
  Forall2 (fun _ v' => v' = v) l (map (fun _ => v) l).
Proof. induction l; simpl; constructor; auto. Qed.

Lemma Forall2_const_map {A B C : Type} (g : A -> C) (l : list A) (v : B) :
  Forall2 (fun _ v' => v' = v) l (map (fun _ => v) (map g l)).
Proof. rewrite map_map. apply Forall2_const. Qed.

Lemma interp_empty (xs fp : list Q) : Numpy.interp xs [] fp = Raise ValueError.
Proof. unfold Numpy.interp. destruct fp; reflexivity. Qed.

Lemma enrich_nonempty_weather (session : FastF1.Session) :
  FastF1.weather_data session <> [] ->
  exists out,
    Ingest.enrich_laps_with_weather session = Ok out /\
    map Ingest.lap out = FastF1.laps session /\
    Forall (fun e =>
      let w := FastF1.weather_data session in
      Ingest.TimeSec e = FastF1.Laps.Time (Ingest.lap e) /\
      channel_value w FastF1.Weather.AirTemp (Ingest.lap e)
        (Ingest.E_AirTemp e) /\
      channel_value w FastF1.Weather.TrackTemp (Ingest.lap e)
        (Ingest.E_TrackTemp e) /\
      channel_value w FastF1.Weather.Humidity (Ingest.lap e)
        (Ingest.E_Humidity e) /\
      channel_value w FastF1.Weather.Rainfall (Ingest.lap e)
        (Ingest.E_Rainfall e)) out.
Proof.
  intros Hne. unfold Ingest.enrich_laps_with_weather.
  destruct (interp_channel FastF1.Weather.AirTemp _ (FastF1.laps session) Hne)
    as (a & -> & Ha).
  destruct (interp_channel FastF1.Weather.TrackTemp _ (FastF1.laps session) Hne)
    as (t & -> & Ht).
  destruct (interp_channel FastF1.Weather.Humidity _ (FastF1.laps session) Hne)
    as (h & -> & Hh).
  destruct (interp_channel FastF1.Weather.Rainfall _ (FastF1.laps session) Hne)
    as (r & -> & Hr).
  eexists. split; [reflexivity|].
  exact (zip_enriched_columns _ _ _ _ _ _ _ _ _ Ha Ht Hh Hr).
Qed.

Lemma channel_value_determined (w : list FastF1.Weather.Sample)
    (ch : FastF1.Weather.Sample -> Q) (l : FastF1.Laps.Lap) (v v0 : Q) :
  Spec.increasing_by_time w ->
  channel_value w ch l v ->
  Spec.piecewise_linear (Spec.series ch w) (FastF1.Laps.Time l) v0 ->
  v0 == v.
Proof.
  intros Hinc [Hv _] Hpl.
  destruct (piecewise_linear_interp1 (Spec.series ch w) (FastF1.Laps.Time l) v0)
    as (v' & Hv' & Heq); [|exact Hpl|].
  - rewrite series_fst. exact Hinc.
  - rewrite series_fst, series_snd, Hv in Hv'. injection Hv' as <-. exact Heq.
Qed.

(** C2.  On a weather series of at least two samples sorted by time,
    [enrich_laps_with_weather] returns the laps of the session, each with,
    for each of the four channels, a piecewise-linear interpolation of the
    channel's (time, value) pairs at the end time of the lap, clamped to
    the value of the nearest end sample outside the range of the series;
    when the sample times increase strictly there is no other such value.
    With the samples (0, 20) and (100, 30), the laps that end at 50, 150
    and -10 receive 25, 30 and 20. *)
Theorem enrich_laps_with_weather_interpolates :
  (forall session : FastF1.Session,
     (2 <= List.length (FastF1.weather_data session))%nat ->
     Spec.sorted_by_time (FastF1.weather_data session) ->
     exists out,
       Ingest.enrich_laps_with_weather session = Ok out /\
       map Ingest.lap out = FastF1.laps session /\
       Forall (Spec.interpolated (FastF1.weather_data session)) out /\
       (Spec.increasing_by_time (FastF1.weather_data session) ->
        Forall (Spec.determined (FastF1.weather_data session)) out)) /\
  (exists e50 e150 em10,
     Ingest.enrich_laps_with_weather
       (Examples.session_of
          [Examples.lap_at 50; Examples.lap_at 150; Examples.lap_at (-10)]
          Examples.weather_0_100)
     = Ok [e50; e150; em10] /\
     Forall (fun v => v == 25) (channels e50) /\
     Forall (fun v => v == 30) (channels e150) /\
     Forall (fun v => v == 20) (channels em10)).
Proof.
  split.
  - intros session Hlen _.
    destruct (enrich_nonempty_weather session) as (out & Hout & Hmap & Hall).
    { intros Hw. rewrite Hw in Hlen. simpl in Hlen. lia. }
    exists out. split; [exact Hout|]. split; [exact Hmap|]. split.
    + eapply Forall_impl; [|exact Hall]. simpl.
      intros e (Ht & Ha & Htr & Hh & Hr). unfold Spec.interpolated.
      repeat split; try exact Ht;
        [apply Ha | apply Htr | apply Hh | apply Hr].
    + intros Hinc. eapply Forall_impl; [|exact Hall]. simpl.
      intros e (Ht & Ha & Htr & Hh & Hr) v.
      repeat split; intros Hpl;
        eapply channel_value_determined; eassumption.
  - do 3 eexists. split; [vm_compute; reflexivity|].
    repeat split; repeat constructor.
Qed.

Lemma enrich_laps_with_weather_interpolates_witness :
  exists out,
    Ingest.enrich_laps_with_weather
      (Examples.session_of [Examples.lap_at 50] Examples.weather_0_100)
    = Ok out /\
    map Ingest.lap out = [Examples.lap_at 50] /\
    Forall (Spec.determined Examples.weather_0_100) out.
Proof.
  destruct enrich_laps_with_weather_interpolates as [H _].
  destruct (H (Examples.session_of [Examples.lap_at 50] Examples.weather_0_100))
    as (out & Hout & Hmap & _ & Hdet).
  - simpl. lia.
  - unfold Spec.sorted_by_time. simpl.
    repeat constructor. unfold Qle. simpl. lia.
  - exists out. split; [exact Hout|]. split; [exact Hmap|].
    apply Hdet. unfold Spec.increasing_by_time. simpl.
    repeat constructor.
Defined.

(** A weather series without any sample makes [np.interp] raise, and the
    exception leaves [enrich_laps_with_weather]. *)
Lemma enrich_empty_weather (session : FastF1.Session) :
  FastF1.weather_data session = [] ->
  Ingest.enrich_laps_with_weather session = Raise ValueError.
Proof.
  intros Hw. unfold Ingest.enrich_laps_with_weather. rewrite Hw. simpl map.
  rewrite interp_empty. reflexivity.
Qed.

(** C3, as the claim states it, fails on an empty weather series: no lap
    receives a value, [enrich_laps_with_weather] raises [ValueError]. *)
Lemma enrich_empty_weather_raises :
  Ingest.enrich_laps_with_weather
    (Examples.session_of [Examples.lap_at 50] [])
  = Raise ValueError /\
  ~ (exists out,
       Ingest.enrich_laps_with_weather
         (Examples.session_of [Examples.lap_at 50] []) = Ok out).
Proof.
  split; [reflexivity|]. intros [out H]. discriminate H.
Qed.

(** C3, amended.  With exactly one weather sample every lap receives the
    value of that sample for each channel.  With an empty weather series
    [enrich_laps_with_weather] raises [ValueError], which [process_season]
    catches: the round is skipped. *)
Theorem enrich_laps_with_weather_short_series (session : FastF1.Session) :
  (List.length (FastF1.weather_data session) < 2)%nat ->
  (forall s, FastF1.weather_data session = [s] ->
     exists out,
       Ingest.enrich_laps_with_weather session = Ok out /\
       map Ingest.lap out = FastF1.laps session /\
       Forall (fun e =>
                 Ingest.E_AirTemp e = FastF1.Weather.AirTemp s /\
                 Ingest.E_TrackTemp e = FastF1.Weather.TrackTemp s /\
                 Ingest.E_Humidity e = FastF1.Weather.Humidity s /\
                 Ingest.E_Rainfall e = FastF1.Weather.Rainfall s) out) /\
  (FastF1.weather_data session = [] ->
     Ingest.enrich_laps_with_weather session = Raise ValueError /\
     forall src year race,
       FastF1.get_session src year (FastF1.Schedule.RoundNumber race)
         = Ok session ->
       Ingest.process_round src year race = None).
Proof.
  intros _. split.
  - intros s Hs. unfold Ingest.enrich_laps_with_weather. rewrite Hs.
    cbn [map]. rewrite !interp_single.
    eexists. split; [reflexivity|].
    pose proof (zip_enriched_columns _ _ _ _ _ _ _ _ _
                  (Forall2_const_map FastF1.Laps.Time (FastF1.laps session)
                     (FastF1.Weather.AirTemp s))
                  (Forall2_const_map FastF1.Laps.Time (FastF1.laps session)
                     (FastF1.Weather.TrackTemp s))
                  (Forall2_const_map FastF1.Laps.Time (FastF1.laps session)
                     (FastF1.Weather.Humidity s))
                  (Forall2_const_map FastF1.Laps.Time (FastF1.laps session)
                     (FastF1.Weather.Rainfall s))) as [Hmap Hall].
    split; [exact Hmap|].
    eapply Forall_impl; [|exact Hall]. simpl. intros e H. tauto.
  - intros Hw. split; [apply enrich_empty_weather; exact Hw|].
    intros src year race Hs. unfold Ingest.process_round. rewrite Hs.
    rewrite (enrich_empty_weather session Hw).
    destruct (Ingest.is_empty _); reflexivity.
Qed.

Lemma enrich_laps_with_weather_short_series_witness :
  exists out,
    Ingest.enrich_laps_with_weather
      (Examples.session_of [Examples.lap_at 50; Examples.in_lap]
         [Examples.sample 0 20]) = Ok out /\
    Forall (fun e => Ingest.E_TrackTemp e = 20) out.
Proof.
  destruct (enrich_laps_with_weather_short_series
              (Examples.session_of [Examples.lap_at 50; Examples.in_lap]
                 [Examples.sample 0 20])) as [H _].
  - simpl. lia.
  - destruct (H (Examples.sample 0 20) eq_refl) as (out & Hout & _ & Hall).
    exists out. split; [exact Hout|].
    eapply Forall_impl; [|exact Hall]. simpl. intros e He. apply He.
Defined.

(** ** The filter of [process_season] *)

(** A round that is not skipped contributes one row per lap of the
    session, whatever the filter selected. *)
Lemma process_round_all_laps (src : FastF1.Provider) (year : Z)
    (race : FastF1.Schedule.Event) (df : DataFrame) :
  Ingest.process_round src year race = Some df ->
  exists session out,
    FastF1.get_session src year (FastF1.Schedule.RoundNumber race)
      = Ok session /\
    FastF1.pick_wo_box (FastF1.pick_accurate (FastF1.laps session)) <> [] /\
    Ingest.enrich_laps_with_weather session = Ok out /\
    map Ingest.lap out = FastF1.laps session /\
    df = map (Ingest.select_cols year race) out.
Proof.
  unfold Ingest.process_round. intros H.
  destruct (FastF1.get_session _ _ _) as [session|] eqn:Es; [|discriminate].
  destruct (Ingest.is_empty _) eqn:Ee; [discriminate|].
  destruct (Ingest.enrich_laps_with_weather session) as [out|] eqn:Eo;
    [|discriminate].
  injection H as <-. exists session, out.
  split; [reflexivity|]. split.
  { intros Hnil. rewrite Hnil in Ee. discriminate. }
  split; [exact Eo|]. split; [|reflexivity].
  destruct (FastF1.weather_data session) as [|s w] eqn:Ew.
  - rewrite (enrich_empty_weather session Ew) in Eo. discriminate.
  - destruct (enrich_nonempty_weather session) as (out' & Ho' & Hm & _).
    + rewrite Ew. discriminate.
    + congruence.
Qed.

Lemma collect_rounds_In (src : FastF1.Provider) (year : Z)
    (races : list FastF1.Schedule.Event) (df : DataFrame) :
  In df (Ingest.collect_rounds src year races) ->
  exists race, In race races /\ Ingest.process_round src year race = Some df.
Proof.
  induction races as [|race races IH]; simpl; [intros []|].
  destruct (Ingest.process_round src year race) as [df'|] eqn:E.
  - intros [<-|Hin].
    + exists race. split; [left; reflexivity | exact E].
    + destruct (IH Hin) as (race' & Hr & Hp). exists race'. auto.
  - intros Hin. destruct (IH Hin) as (race' & Hr & Hp). exists race'. auto.
Qed.


(** C1.  The season table of a provider whose only race has one clean lap
    and one in-lap that is not flagged accurate holds a row for each of
    the two laps: the filtered table is replaced by the result of
    [enrich_laps_with_weather(session)], which is computed from
    [session.laps]. *)
Theorem process_season_keeps_unfiltered_laps :
  exists clean boxed,
    Ingest.process_season Examples.one_race 2023 = Some [clean; boxed] /\
    PitInTime boxed = Some 195 /\
    ~ Spec.from_clean_lap Examples.one_race 2023 boxed /\
    FastF1.pick_wo_box
      (FastF1.pick_accurate [Examples.lap_at 50; Examples.in_lap])
    = [Examples.lap_at 50].
Proof.
  do 2 eexists. split; [vm_compute; reflexivity|].
  split; [reflexivity|]. split; [|reflexivity].
  intros (race & session & e & _ & _ & _ & (_ & Hin & _) & Hrow).
  apply (f_equal PitInTime) in Hrow. simpl in Hrow.
  rewrite Hin in Hrow. discriminate Hrow.
Qed.

(** ** Group-by results *)

Section GroupBy.

Import Pandas.

Lemma key_eqb_eq (k1 k2 : Key) : key_eqb k1 k2 = true <-> k1 = k2.
Proof.
  destruct k1 as [y1 e1], k2 as [y2 e2]. unfold key_eqb. simpl.
  rewrite andb_true_iff, Z.eqb_eq, String.eqb_eq.
  split; [intros [-> ->]; reflexivity | intros H; injection H; auto].
Qed.

Lemma key_eqb_refl (k : Key) : key_eqb k k = true.
Proof. apply key_eqb_eq. reflexivity. Qed.

Lemma existsb_key (k : Key) (ks : list Key) :
  existsb (key_eqb k) ks = true <-> In k ks.
Proof.
  rewrite existsb_exists. split.
  - intros (k' & Hin & Hk). apply key_eqb_eq in Hk. subst. exact Hin.
  - intros Hin. exists k. split; [exact Hin | apply key_eqb_refl].
Qed.

Lemma group_keys_spec (df : DataFrame) (k : Key) :
  In k (group_keys df) <-> exists r, In r df /\ row_key r = Some k.
Proof.
  induction df as [|r df IH]; simpl.
  - split; [tauto | intros (r & [] & _)].
  - destruct (row_key r) as [k'|] eqn:Ek.
    + destruct (existsb (key_eqb k') (group_keys df)) eqn:Ex.
      * rewrite IH. split.
        -- intros (r' & Hin & Hk). exists r'. auto.
        -- intros (r' & [->|Hin] & Hk).
           ++ rewrite Ek in Hk. injection Hk as ->.
              apply IH. apply existsb_key. exact Ex.
           ++ exists r'. auto.
      * simpl. rewrite IH. split.
        -- intros [->|(r' & Hin & Hk)].
           ++ exists r. auto.
           ++ exists r'. auto.
        -- intros (r' & [->|Hin] & Hk).
           ++ left. congruence.
           ++ right. exists r'. auto.
    + rewrite IH. split.
      * intros (r' & Hin & Hk). exists r'. auto.
      * intros (r' & [->|Hin] & Hk); [congruence|]. exists r'. auto.
Qed.

Lemma lookup_map {V : Type} (F : Key -> V) (ks : list Key) (k : Key) :
  lookup (map (fun k => (k, F k)) ks) k
  = if existsb (key_eqb k) ks then Some (F k) else None.
Proof.
  induction ks as [|k' ks IH]; simpl; [reflexivity|].
  destruct (key_eqb k k') eqn:E; simpl; [|exact IH].
  apply key_eqb_eq in E. subst. reflexivity.
Qed.

(** The entry of a group-by result at the key of a row of the table. *)
Lemma lookup_groupby col agg (df : DataFrame) (r : Row) (k : Key) :
  In r df -> row_key r = Some k ->
  lookup (groupby_agg col agg df) k
  = Some (agg (dropna (map col (group df k)))).
Proof.
  intros Hin Hk. unfold groupby_agg.
  rewrite (lookup_map (fun k => agg (dropna (map col (group df k))))).
  replace (existsb (key_eqb k) (group_keys df)) with true; [reflexivity|].
  symmetry. apply existsb_key, group_keys_spec. exists r. auto.
Qed.

Lemma in_group_iff (df : DataFrame) (k : Key) (r : Row) :
  In r (group df k) <-> In r df /\ row_key r = Some k.
Proof.
  unfold group. rewrite filter_In. unfold in_group.
  destruct (row_key r) as [k'|].
  - rewrite key_eqb_eq. split; intros [H1 H2]; split; congruence.
  - split; intros [H1 H2]; split; congruence.
Qed.

Lemma in_dropna {A : Type} (l : list (option A)) (a : A) :
  In a (dropna l) <-> In (Some a) l.
Proof.
  induction l as [|[b|] l IH]; simpl.
  - tauto.
  - rewrite IH. split; intros [H|H]; auto; left; congruence.
  - rewrite IH. split; [auto | intros [H|H]; [discriminate | exact H]].
Qed.

(** The values of a column in the group of a row hold the value of the
    row. *)
Lemma in_group_column (col : Row -> option Q) (df : DataFrame) (r : Row)
    (k : Key) (x : Q) :
  In r df -> row_key r = Some k -> col r = Some x ->
  In x (dropna (map col (group df k))).
Proof.
  intros Hin Hk Hx. apply in_dropna. rewrite <- Hx.
  apply in_map. apply in_group_iff. auto.
Qed.

Lemma group_column_from (col : Row -> option Q) (df : DataFrame) (k : Key)
    (x : Q) :
  In x (dropna (map col (group df k))) ->
  exists r, In r df /\ row_key r = Some k /\ col r = Some x.
Proof.
  intros H. apply in_dropna in H. apply in_map_iff in H.
  destruct H as (r & Hx & Hin). apply in_group_iff in Hin.
  exists r. tauto.
Qed.

Lemma list_max_spec (l : list Q) (m : Q) :
  list_max l = Some m -> Spec.is_max m l.
Proof.
  revert m. induction l as [|x l IH]; simpl; intros m H; [discriminate|].
  destruct (list_max l) as [m'|] eqn:El.
  - destruct (IH m' eq_refl) as [Hin Hle].
    destruct (Qlt_bool m' x) eqn:E; injection H as <-.
    + apply Qlt_bool_iff in E. split; [left; reflexivity|].
      intros y [<-|Hy]; [apply Qle_refl|].
      apply Qle_trans with m'; [apply Hle; exact Hy|].
      apply Qlt_le_weak. exact E.
    + apply Qlt_bool_false in E. split; [right; exact Hin|].
      intros y [<-|Hy]; [exact E | apply Hle; exact Hy].
  - injection H as <-. destruct l; [|simpl in El;
      destruct (list_max l); discriminate].
    split; [left; reflexivity|].
    intros y [<-|[]]. apply Qle_refl.
Qed.

Lemma list_max_nonempty (l : list Q) :
  l <> [] -> exists m, list_max l = Some m.
Proof.
  destruct l as [|x l]; [congruence|]. intros _. simpl.
  destruct (list_max l); eexists; reflexivity.
Qed.

Lemma is_max_unique (l : list Q) (a b : Q) :
  Spec.is_max a l -> Spec.is_max b l -> a == b.
Proof.
  intros [Ha1 Ha2] [Hb1 Hb2]. apply Qle_antisym; auto.
Qed.

End GroupBy.

(** ** calculate_fuel_mass *)

Section FuelMass.

Import Pandas Features.

Lemma Forall2_map_self {A B : Type} (P : A -> B -> Prop) (g : A -> B)
    (l : list A) :
  (forall a, In a l -> P a (g a)) -> Forall2 P l (map g l).
Proof.
  induction l as [|a l IH]; intros H; simpl; constructor.
  - apply H. left. reflexivity.
  - apply IH. intros a' Ha'. apply H. right. exact Ha'.
Qed.

(** The row [calculate_fuel_mass] computes from a row of the table. *)
Lemma calculate_fuel_mass_df_rows (df : DataFrame) :
  calculate_fuel_mass_df df
  = map (fun r =>
           set_FuelMass (clip_lower 2.0 (get_fuel (race_lengths df) r)) r)
        df.
Proof. unfold calculate_fuel_mass_df. rewrite map_map. reflexivity. Qed.

(** The total laps [get_fuel] reads for a row of the table that has a lap
    number. *)
Lemma total_laps_lookup (df : DataFrame) (r : Row) (L : Q) :
  In r df -> LapNumber r = Some L ->
  exists t,
    dict_get (race_lengths df) (row_key r) (Some 55) = Some t /\
    forall T, Spec.total_laps df r T -> T == t.
Proof.
  intros Hin HL. unfold Spec.total_laps, dict_get.
  destruct (row_key r) as [k|] eqn:Ek.
  - unfold race_lengths. rewrite (lookup_groupby _ _ df r k Hin Ek).
    assert (HinL : In L (dropna (map LapNumber (group df k))))
      by (apply in_group_column with (r := r); assumption).
    destruct (list_max_nonempty (dropna (map LapNumber (group df k))))
      as [m Hm].
    { intros E. rewrite E in HinL. destruct HinL. }
    rewrite Hm. exists m. split; [reflexivity|].
    intros T HT.
    apply is_max_unique with (l := dropna (map LapNumber (group df k)));
      [exact HT | apply list_max_spec; exact Hm].
  - exists 55. split; [reflexivity|]. intros T ->. reflexivity.
Qed.


End FuelMass.



(** C9.  After [calculate_fuel_mass], of two rows with the same season and
    event, the one with the smaller lap number has at least as much fuel. *)
Theorem calculate_fuel_mass_monotone (df : DataFrame) (r1 r2 : Row)
    (L1 L2 : Q) :
  In r1 (Features.calculate_fuel_mass_df df) ->
  In r2 (Features.calculate_fuel_mass_df df) ->
  Year r1 = Year r2 -> EventName r1 = EventName r2 ->
  LapNumber r1 = Some L1 -> LapNumber r2 = Some L2 ->
  L1 <= L2 ->
  exists f1 f2,
    FuelMass r1 = Some f1 /\ FuelMass r2 = Some f2 /\ f2 <= f1.
Proof.
  rewrite calculate_fuel_mass_df_rows.
  intros H1 H2 Hy He HL1 HL2 Hle.
  apply in_map_iff in H1. destruct H1 as (s1 & <- & Hs1).
  apply in_map_iff in H2. destruct H2 as (s2 & <- & Hs2).
  simpl in *.
  destruct (total_laps_lookup df s1 L1 Hs1 HL1) as (t1 & Ht1 & _).
  destruct (total_laps_lookup df s2 L2 Hs2 HL2) as (t2 & Ht2 & _).
  assert (Hk : Pandas.row_key s1 = Pandas.row_key s2)
    by (unfold Pandas.row_key; rewrite Hy, He; reflexivity).
  rewrite Hk in Ht1. rewrite Ht1 in Ht2. injection Ht2 as <-.
  unfold Features.get_fuel. rewrite Hk, Ht1, HL1, HL2. simpl.
  do 2 eexists. split; [reflexivity|]. split; [reflexivity|].
  destruct (Qlt_bool ((t1 - L1) * 1.7 + 5) 2.0) eqn:E1;
    destruct (Qlt_bool ((t1 - L2) * 1.7 + 5) 2.0) eqn:E2;
    try apply Qlt_bool_iff in E1; try apply Qlt_bool_false in E1;
    try apply Qlt_bool_iff in E2; try apply Qlt_bool_false in E2; lra.
Qed.

Lemma calculate_fuel_mass_monotone_witness :
  exists f1 f2,
    FuelMass (nth 0 (Features.calculate_fuel_mass_df Examples.race_of_50)
                (Examples.row 0 "" 0 "" None 0)) = Some f1 /\
    FuelMass (nth 1 (Features.calculate_fuel_mass_df Examples.race_of_50)
                (Examples.row 0 "" 0 "" None 0)) = Some f2 /\
    f2 <= f1.
Proof.
  apply (calculate_fuel_mass_monotone Examples.race_of_50 _ _ 10 50).
  - left. reflexivity.
  - right. left. reflexivity.
  - reflexivity.
  - reflexivity.
  - reflexivity.
  - reflexivity.
  - unfold Qle. simpl. lia.
Defined.

(** ** encode_physics_features *)

Section Encode.

Import Pandas Features.

Lemma filter_negb_length {A : Type} (f : A -> bool) (l : list A) :
  (List.length l - List.length (filter f l))%nat
  = List.length (filter (fun a => negb (f a)) l).
Proof.
  assert (H : (List.length (filter f l)
               + List.length (filter (fun a => negb (f a)) l))%nat
              = List.length l).
  { induction l as [|a l IH]; simpl; [reflexivity|].
    destruct (f a); simpl; lia. }
  lia.
Qed.

(** The dictionary [compound_map] is the table of the specification. *)
Lemma map_compound_score (c : option string) :
  map_compound c = Spec.score c.
Proof.
  destruct c as [s|]; [|reflexivity].
  unfold map_compound, compound_map. simpl Dict.find.
  destruct (String.eqb s "HARD") eqn:E1;
    [apply String.eqb_eq in E1; subst; reflexivity|].
  destruct (String.eqb s "MEDIUM") eqn:E2;
    [apply String.eqb_eq in E2; subst; reflexivity|].
  destruct (String.eqb s "SOFT") eqn:E3;
    [apply String.eqb_eq in E3; subst; reflexivity|].
  destruct (String.eqb s "INTERMEDIATE") eqn:E4;
    [apply String.eqb_eq in E4; subst; reflexivity|].
  destruct (String.eqb s "WET") eqn:E5;
    [apply String.eqb_eq in E5; subst; reflexivity|].
  unfold Spec.score.
  repeat match goal with
         | |- None = match ?x with _ => _ end =>
             is_var x; destruct x; try reflexivity; try discriminate
         end.
Qed.

End Encode.

Section EncodeRows.

Import Pandas Features.

Lemma keeps_iff (r : Row) :
  keeps r = true <-> Spec.strictly_positive (Spec.score (Compound r)).
Proof.
  unfold keeps, Spec.strictly_positive.
  destruct (Spec.score (Compound r)) as [s|].
  - rewrite Z.ltb_lt. split.
    + intros H. exists s. auto.
    + intros (z & Hz & Hpos). injection Hz as ->. exact Hpos.
  - split; [discriminate | intros (z & Hz & _); discriminate].
Qed.

Lemma encode_physics_features_df_rows (df : DataFrame) :
  exists df3,
    encode_physics_features_df df
    = (map (encoded df3) (filter keeps df),
       List.length (filter (fun r => negb (keeps r)) df)).
Proof.
  unfold encode_physics_features_df.
  rewrite filter_map_swap, !length_map.
  assert (Hk : forall df0,
             filter (fun a => softness_positive
                 (set_Compound_Softness (map_compound (Compound a)) a)) df0
             = filter keeps df0).
  { intros df0. apply filter_ext. intros r. unfold softness_positive, keeps.
    simpl. rewrite map_compound_score. reflexivity. }
  rewrite Hk, filter_negb_length, !map_map.
  eexists. f_equal. apply map_ext. intros r. unfold encoded.
  rewrite map_compound_score. reflexivity.
Qed.



End EncodeRows.

Lemma four_compounds_cases (r : Row) :
  Spec.has_compound "HARD" r || Spec.has_compound "SOFT" r
  || Spec.has_compound "WET" r || Spec.has_compound "INTERMEDIATE" r = true ->
  (keeps r = true /\
   Spec.has_compound "HARD" r || Spec.has_compound "SOFT" r = true /\
   Spec.has_compound "WET" r = false /\
   Spec.has_compound "INTERMEDIATE" r = false) \/
  (keeps r = false /\ Spec.has_compound "WET" r = true /\
   Spec.has_compound "INTERMEDIATE" r = false) \/
  (keeps r = false /\ Spec.has_compound "WET" r = false /\
   Spec.has_compound "INTERMEDIATE" r = true).
Proof.
  unfold Spec.has_compound, keeps. destruct (Compound r) as [s|];
    [|discriminate].
  rewrite !orb_true_iff, !String.eqb_eq.
  intros [[[->| ->]| ->]| ->]; simpl; tauto.
Qed.

Lemma wet_intermediate_count (df : DataFrame) :
  (forall r, In r df ->
     Spec.has_compound "HARD" r || Spec.has_compound "SOFT" r
     || Spec.has_compound "WET" r || Spec.has_compound "INTERMEDIATE" r
     = true) ->
  List.length (filter (fun r => negb (keeps r)) df)
  = (List.length (filter (Spec.has_compound "WET") df)
     + List.length (filter (Spec.has_compound "INTERMEDIATE") df))%nat /\
  Forall (fun r => Spec.has_compound "HARD" r || Spec.has_compound "SOFT" r
                   = true) (filter keeps df).
Proof.
  induction df as [|r df IH]; intros H; [split; [reflexivity | constructor]|].
  destruct IH as [IHn IHf]; [intros r' Hr'; apply H; right; exact Hr'|].
  simpl filter.
  destruct (four_compounds_cases r (H r (or_introl eq_refl)))
    as [(-> & Hd & -> & ->)|[(-> & -> & ->)|(-> & -> & ->)]]; simpl;
    rewrite IHn; (split; [lia|]); try exact IHf.
  constructor; assumption.
Qed.

(** C5.  [encode_physics_features] scores the compound of each row by the
    table HARD 1, MEDIUM 2, SOFT 3, INTERMEDIATE 0, WET 0, a token outside
    the table getting a missing score, and keeps, in order, exactly the
    rows whose score is strictly positive; the count it reports is the
    number of the other rows.  On a table whose compounds are HARD, SOFT,
    WET or INTERMEDIATE the rows kept are the HARD and SOFT ones and the
    count is the number of WET rows plus the number of INTERMEDIATE
    rows. *)
Theorem encode_physics_features_filter :
  (forall c, Features.map_compound c = Spec.score c) /\
  (forall df : DataFrame,
     exists keep : Row -> bool,
       (forall r, keep r = true <->
                  Spec.strictly_positive (Spec.score (Compound r))) /\
       Forall2 (fun r r' =>
                  Compound_Softness r' = Spec.score (Compound r) /\
                  r' = Features.set_TrackTemp (TrackTemp r')
                         (Features.set_TyreAge (TyreAge r')
                            (Features.set_Compound_Softness
                               (Compound_Softness r') r)))
               (filter keep df)
               (fst (Features.encode_physics_features_df df)) /\
       snd (Features.encode_physics_features_df df)
       = List.length (filter (fun r => negb (keep r)) df) /\
       ((forall r, In r df ->
           Spec.has_compound "HARD" r || Spec.has_compound "SOFT" r
           || Spec.has_compound "WET" r || Spec.has_compound "INTERMEDIATE" r
           = true) ->
        Forall (fun r' => Spec.has_compound "HARD" r'
                          || Spec.has_compound "SOFT" r' = true)
               (fst (Features.encode_physics_features_df df)) /\
        snd (Features.encode_physics_features_df df)
        = (List.length (filter (Spec.has_compound "WET") df)
           + List.length
               (filter (Spec.has_compound "INTERMEDIATE") df))%nat)) /\
  (map Compound
     (fst (Features.encode_physics_features_df Examples.four_compounds))
   = [Some "HARD"%string; Some "SOFT"%string] /\
   snd (Features.encode_physics_features_df Examples.four_compounds) = 2%nat).
Proof.
  split; [exact map_compound_score|]. split; [|split; reflexivity].
  intros df. exists keeps.
  destruct (encode_physics_features_df_rows df) as [df3 ->]. simpl fst.
  simpl snd. split; [exact keeps_iff|]. split; [|split; [reflexivity|]].
  - apply Forall2_map_self. intros r _. split; reflexivity.
  - intros H. destruct (wet_intermediate_count df H) as [Hn Hf].
    split; [|exact Hn].
    apply Forall_map. eapply Forall_impl; [|exact Hf].
    intros r Hr. exact Hr.
Qed.

Lemma encode_physics_features_filter_witness :
  Forall (fun r' => Spec.has_compound "HARD" r'
                    || Spec.has_compound "SOFT" r' = true)
         (fst (Features.encode_physics_features_df Examples.four_compounds)) /\
  snd (Features.encode_physics_features_df Examples.four_compounds)
  = (List.length (filter (Spec.has_compound "WET") Examples.four_compounds)
     + List.length (filter (Spec.has_compound "INTERMEDIATE")
                      Examples.four_compounds))%nat.
Proof.
  destruct encode_physics_features_filter as (_ & H & _).
  destruct (H Examples.four_compounds) as (keep & _ & _ & _ & Hfour).
  apply Hfour. intros r Hr. simpl in Hr.
  repeat (destruct Hr as [<-|Hr]; [reflexivity|]). destruct Hr.
Defined.




(** ** create_target_variable *)

Section Outliers.

Import Pandas Features.


Lemma is_outlier_in_group (df : DataFrame) (r : Row) (k : Key) :
  In r df -> row_key r = Some k ->
  is_outlier (race_medians df) r = Ok (outlier df r).
Proof.
  intros Hin Hk. unfold is_outlier, loc, race_medians, outlier,
    Spec.group_median.
  rewrite Hk, (lookup_groupby _ _ df r k Hin Hk). reflexivity.
Qed.

Lemma is_outlier_no_group (d : list (Key * option Q)) (r : Row) :
  row_key r = None -> is_outlier d r = Raise KeyError.
Proof. intros Hk. unfold is_outlier. rewrite Hk. reflexivity. Qed.

Lemma is_outlier_raises (d : list (Key * option Q)) (r : Row) (e : Exn) :
  is_outlier d r = Raise e -> e = KeyError.
Proof.
  unfold is_outlier, loc. destruct (row_key r) as [k|].
  - destruct (lookup d k); intros H; [discriminate | congruence].
  - congruence.
Qed.

Lemma mask_of_rows (df l : DataFrame) :
  (forall r, In r l -> In r df) ->
  (forall r, In r l -> row_key r <> None) ->
  mapM (is_outlier (race_medians df)) l = Ok (map (outlier df) l).
Proof.
  intros Hsub Hkey. apply mapM_Ok.
  induction l as [|r l IH]; simpl; constructor.
  - destruct (row_key r) as [k|] eqn:Ek.
    + apply is_outlier_in_group with (k := k);
        [apply Hsub; left; reflexivity | exact Ek].
    + exfalso. apply (Hkey r); [left; reflexivity | exact Ek].
  - apply IH; intros r' Hr'; [apply Hsub | apply Hkey]; right; exact Hr'.
Qed.

Lemma select_mask_filter {A : Type} (f : A -> bool) (l : list A) :
  select_mask l (map negb (map f l)) = filter (fun a => negb (f a)) l.
Proof.
  induction l as [|a l IH]; simpl; [reflexivity|].
  rewrite IH. destruct (f a); reflexivity.
Qed.

Lemma count_true_filter {A : Type} (f : A -> bool) (l : list A) :
  count_true (map f l) = List.length (filter f l).
Proof.
  unfold count_true. induction l as [|a l IH]; simpl; [reflexivity|].
  destruct (f a); simpl; rewrite IH; reflexivity.
Qed.

(** [create_target_variable] on a table whose rows all have a season and
    an event. *)
Lemma create_target_variable_df_keyed (df : DataFrame) :
  (forall r, In r df -> row_key r <> None) ->
  create_target_variable_df df
  = Ok (filter (fun r => negb (outlier df r)) df,
        List.length (filter (outlier df) df)).
Proof.
  intros Hkey. unfold create_target_variable_df.
  rewrite (mask_of_rows df df (fun r H => H) Hkey).
  rewrite select_mask_filter, count_true_filter. reflexivity.
Qed.

(** [create_target_variable] raises exactly when a row has no season or
    no event, and then [KeyError]. *)
Lemma create_target_variable_df_cases (df : DataFrame) :
  (create_target_variable_df df
   = Ok (filter (fun r => negb (outlier df r)) df,
         List.length (filter (outlier df) df)) /\
   forall r, In r df -> row_key r <> None) \/
  (create_target_variable_df df = Raise KeyError /\
   exists r, In r df /\ row_key r = None).
Proof.
  destruct (forallb (fun r => negb (FastF1.isnull (row_key r))) df) eqn:E.
  - left. assert (Hkey : forall r, In r df -> row_key r <> None).
    { intros r Hr Hk. rewrite forallb_forall in E. specialize (E r Hr).
      rewrite Hk in E. discriminate. }
    split; [apply create_target_variable_df_keyed; exact Hkey | exact Hkey].
  - right. assert (Hex : exists r, In r df /\ row_key r = None).
    { clear -E. induction df as [|r df IH]; [discriminate|].
      simpl in E. apply andb_false_iff in E. destruct E as [E|E].
      - exists r. split; [left; reflexivity|].
        destruct (row_key r); [discriminate | reflexivity].
      - destruct (IH E) as (r' & Hin & Hk). exists r'. auto with datatypes. }
    split; [|exact Hex]. destruct Hex as (r & Hin & Hk).
    unfold create_target_variable_df.
    destruct (mapM (is_outlier (race_medians df)) df) as [mask|e] eqn:Em.
    + destruct (mapM_Ok_In _ _ _ r Em Hin) as [b Hb].
      rewrite (is_outlier_no_group _ r Hk) in Hb. discriminate.
    + apply mapM_Raise in Em. destruct Em as (r' & _ & Hr').
      apply is_outlier_raises in Hr'. subst. reflexivity.
Qed.

(** *** The median *)

Lemma insert_sorted_In (x y : Q) (l : list Q) :
  In y (insert_sorted x l) <-> y = x \/ In y l.
Proof.
  induction l as [|z l IH]; simpl; [intuition|].
  destruct (Qle_bool x z); simpl; [intuition|].
  rewrite IH. intuition.
Qed.

Lemma sort_In (y : Q) (l : list Q) : In y (sort l) <-> In y l.
Proof.
  induction l as [|x l IH]; simpl; [tauto|].
  rewrite insert_sorted_In, IH. intuition.
Qed.

Lemma insert_sorted_length (x : Q) (l : list Q) :
  List.length (insert_sorted x l) = S (List.length l).
Proof.
  induction l as [|z l IH]; simpl; [reflexivity|].
  destruct (Qle_bool x z); simpl; [|rewrite IH]; reflexivity.
Qed.

Lemma sort_length (l : list Q) : List.length (sort l) = List.length l.
Proof.
  induction l as [|x l IH]; simpl; [reflexivity|].
  rewrite insert_sorted_length, IH. reflexivity.
Qed.

Lemma median_nonempty (l : list Q) :
  l <> [] -> exists m, median l = Some m.
Proof.
  intros Hne. unfold median. rewrite sort_length.
  destruct l as [|x l]; [congruence|]. simpl List.length.
  destruct (Nat.odd (S (List.length l))); eexists; reflexivity.
Qed.

(** The median is no less than a lower bound of the values. *)
Lemma median_lower_bound (l : list Q) (m lo : Q) :
  median l = Some m -> (forall y, In y l -> lo <= y) -> lo <= m.
Proof.
  unfold median. rewrite sort_length. intros Hm Hlo.
  assert (Hnth : forall i, (i < List.length l)%nat -> lo <= nth i (sort l) 0).
  { intros i Hi. apply Hlo. apply sort_In. apply nth_In.
    rewrite sort_length. exact Hi. }
  destruct (List.length l) as [|n] eqn:En; [discriminate|].
  assert (Hhalf : (S n / 2 < S n)%nat)
    by (apply Nat.div_lt; lia).
  cbv iota in Hm. set (h := (S n / 2)%nat) in *. clearbody h.
  pose proof (Hnth h Hhalf) as H1.
  pose proof (Hnth (h - 1)%nat ltac:(lia)) as H2.
  destruct (Nat.odd (S n)); injection Hm as <-; [exact H1|].
  apply Qle_shift_div_l; [reflexivity | lra].
Qed.

Lemma list_has_min (l : list Q) :
  l <> [] -> exists x, In x l /\ forall y, In y l -> x <= y.
Proof.
  induction l as [|a l IH]; [congruence|]. intros _.
  destruct l as [|b l].
  - exists a. split; [left; reflexivity|].
    intros y [<-|[]]. apply Qle_refl.
  - destruct IH as (x & Hin & Hmin); [discriminate|].
    destruct (Qlt_le_dec a x) as [Hlt|Hle].
    + exists a. split; [left; reflexivity|].
      intros y [<-|Hy]; [apply Qle_refl|].
      apply Qle_trans with x; [apply Qlt_le_weak; exact Hlt | auto].
    + exists x. split; [right; exact Hin|].
      intros y [<-|Hy]; [exact Hle | auto].
Qed.

End Outliers.

(** A row without an event is in no group: [race_medians.loc] raises. *)
Lemma create_target_variable_no_group :
  Features.create_target_variable_df
    (Examples.race_of_50
     ++ [Examples.no_event
           (Examples.row 2023 "Monaco Grand Prix" 41 "HARD" (Some 34) 91)])
  = Raise KeyError.
Proof. vm_compute. reflexivity. Qed.



(** C10.  On a table whose lap times are not negative,
    [create_target_variable] removes no row whose [LapTimeSeconds] is at
    most the median of its (season, event) group, and every group that has
    a row before has a row after. *)
Theorem create_target_variable_keeps_fast_laps (df : DataFrame) :
  (forall r x, In r df -> LapTimeSeconds r = Some x -> 0 <= x) ->
  ((forall r, In r df -> Pandas.row_key r <> None) ->
   exists out n, Features.create_target_variable_df df = Ok (out, n)) /\
  (forall out n,
     Features.create_target_variable_df df = Ok (out, n) ->
     (forall r x m,
        In r df -> LapTimeSeconds r = Some x ->
        Spec.group_median df r = Some m -> x <= m -> In r out) /\
     (forall k, Pandas.group df k <> [] -> Pandas.group out k <> [])).
Proof.
  intros Hpos. split.
  - intros Hkey. rewrite (create_target_variable_df_keyed df Hkey).
    do 2 eexists. reflexivity.
  - intros out n H.
    destruct (create_target_variable_df_cases df) as [[E _]|[E _]];
      rewrite E in H; [|discriminate].
    injection H as <- <-.
    assert (Hfast : forall r x m,
               In r df -> LapTimeSeconds r = Some x ->
               Spec.group_median df r = Some m -> x <= m ->
               In r (filter (fun r => negb (outlier df r)) df)).
    { intros r x m Hin Hx Hm Hle. apply filter_In. split; [exact Hin|].
      unfold outlier. rewrite Hx, Hm. simpl.
      rewrite negb_true_iff. apply Qlt_bool_false.
      assert (H0 : 0 <= m).
      { unfold Spec.group_median in Hm.
        destruct (Pandas.row_key r) as [k|]; [|discriminate].
        apply (median_lower_bound _ m 0 Hm).
        intros y Hy. apply group_column_from in Hy.
        destruct Hy as (r' & Hr' & _ & Hy). exact (Hpos r' y Hr' Hy). }
      lra. }
    split; [exact Hfast|].
    intros k Hne Hempty.
    assert (Hex : exists r, In r (Pandas.group df k)).
    { destruct (Pandas.group df k) as [|r g]; [congruence|].
      exists r. left. reflexivity. }
    destruct Hex as [r Hr]. apply in_group_iff in Hr. destruct Hr as [Hin Hk].
    pose (vals := Pandas.dropna (map LapTimeSeconds (Pandas.group df k))).
    assert (Hkept : exists r', In r' df /\ Pandas.row_key r' = Some k /\
                               outlier df r' = false).
    { destruct vals as [|v vs] eqn:Ev.
      - exists r. split; [exact Hin|]. split; [exact Hk|].
        destruct (LapTimeSeconds r) as [x|] eqn:Ex.
        + pose proof (in_group_column LapTimeSeconds df r k x Hin Hk Ex) as Hv.
          fold vals in Hv. rewrite Ev in Hv. destruct Hv.
        + unfold outlier. rewrite Ex. reflexivity.
      - destruct (list_has_min vals) as (x & Hx & Hmin);
          [rewrite Ev; discriminate|].
        destruct (median_nonempty vals) as [m Hm]; [rewrite Ev; discriminate|].
        pose proof (median_lower_bound vals m x Hm Hmin) as Hle.
        apply group_column_from in Hx.
        destruct Hx as (r' & Hin' & Hk' & Hxr).
        exists r'. split; [exact Hin'|]. split; [exact Hk'|].
        assert (Hm' : Spec.group_median df r' = Some m)
          by (unfold Spec.group_median; rewrite Hk'; exact Hm).
        pose proof (Hfast r' x m Hin' Hxr Hm' Hle) as Hf.
        apply filter_In in Hf. destruct Hf as [_ Hf].
        apply negb_true_iff in Hf. exact Hf. }
    destruct Hkept as (r' & Hin' & Hk' & Hno).
    assert (Hout : In r' (Pandas.group
                            (filter (fun r => negb (outlier df r)) df) k)).
    { apply in_group_iff. split; [|exact Hk']. apply filter_In.
      split; [exact Hin'|]. rewrite Hno. reflexivity. }
    rewrite Hempty in Hout. destruct Hout.
Qed.

Lemma create_target_variable_keeps_fast_laps_witness :
  exists out n,
    Features.create_target_variable_df Examples.race_of_50 = Ok (out, n) /\
    Pandas.group out (2023%Z, "Monaco Grand Prix"%string) <> [].
Proof.
  destruct (create_target_variable_keeps_fast_laps Examples.race_of_50)
    as [Htotal Hrows].
  - intros r x Hr Hx. simpl in Hr.
    repeat (destruct Hr as [<-|Hr];
            [injection Hx as <-; unfold Qle; simpl; lia|]).
    destruct Hr.
  - destruct Htotal as (out & n & Hrun).
    + intros r Hr. simpl in Hr.
      repeat (destruct Hr as [<-|Hr]; [discriminate|]). destruct Hr.
    + exists out, n. split; [exact Hrun|].
      apply (proj2 (Hrows out n Hrun)). discriminate.
Defined.

(** ** Runs of the pipeline *)

Section Disk.

Import Dict.

Context {V : Type}.

Lemma find_put_same (n : string) (v : V) (l : list (string * V)) :
  find n (put n v l) = Some v.
Proof.
  induction l as [|[n' v'] l IH]; simpl.
  - rewrite String.eqb_refl. reflexivity.
  - destruct (String.eqb n n') eqn:E; simpl; rewrite E;
      [reflexivity | exact IH].
Qed.

Lemma find_put_other (n n' : string) (v : V) (l : list (string * V)) :
  n <> n' -> find n (put n' v l) = find n l.
Proof.
  intros Hne. apply String.eqb_neq in Hne.
  induction l as [|[m v'] l IH]; simpl.
  - rewrite Hne. reflexivity.
  - destruct (String.eqb n' m) eqn:E; simpl.
    + apply String.eqb_eq in E. subst m. rewrite Hne. reflexivity.
    + rewrite IH. reflexivity.
Qed.

Lemma put_put (n : string) (v v' : V) (l : list (string * V)) :
  put n v (put n v' l) = put n v l.
Proof.
  induction l as [|[m w] l IH]; simpl.
  - rewrite String.eqb_refl. reflexivity.
  - destruct (String.eqb n m) eqn:E; simpl; rewrite E;
      [reflexivity | rewrite IH; reflexivity].
Qed.

End Disk.

Section Run.

Import Features.

Lemma raw_is_not_processed : RAW_DATA_PATH <> PROCESSED_DATA_PATH.
Proof. discriminate. Qed.

Lemma read_files_eq (files : list string) (w : World) :
  read_files files w
  = match mapM (OS.read_parquet (disk w) RAW_DATA_PATH) files with
    | Raise e => Raise e
    | Ok dfs =>
        Ok (dfs, mkWorld (self_df w) (disk w) (log w ++ map Loaded files))
    end.
Proof.
  revert w. induction files as [|file files IH]; intros w.
  - simpl. unfold ret. rewrite app_nil_r. destruct w; reflexivity.
  - simpl. unfold bind, get_disk, lift, logging_info.
    destruct (OS.read_parquet (disk w) RAW_DATA_PATH file) as [t|e];
      [|reflexivity].
    rewrite IH. simpl.
    destruct (mapM (OS.read_parquet (disk w) RAW_DATA_PATH) files)
      as [dfs|e]; [|reflexivity].
    unfold ret. rewrite <- app_assoc. reflexivity.
Qed.

Lemma load_raw_data_eq (w : World) :
  load_raw_data w
  = match OS.listdir (disk w) RAW_DATA_PATH with
    | Raise e => Raise e
    | Ok names =>
        let files := filter (fun f => OS.endswith f ".parquet") names in
        if Ingest.is_empty files then Raise FileNotFoundError
        else
          match mapM (OS.read_parquet (disk w) RAW_DATA_PATH) files with
          | Raise e => Raise e
          | Ok dfs =>
              Ok (tt, mkWorld (Some (List.concat dfs)) (disk w)
                        ((log w ++ map Loaded files)
                         ++ [TotalRawSamples (List.length (List.concat dfs))]))
          end
    end.
Proof.
  unfold load_raw_data, bind at 1 2, get_disk, lift.
  destruct (OS.listdir (disk w) RAW_DATA_PATH) as [names|e]; [|reflexivity].
  cbv zeta. destruct (Ingest.is_empty _); [reflexivity|].
  unfold bind at 1. rewrite read_files_eq.
  destruct (mapM _ _) as [dfs|e]; reflexivity.
Qed.

Lemma calculate_fuel_mass_eq (w : World) :
  calculate_fuel_mass w
  = match self_df w with
    | None => Raise AttributeError
    | Some df =>
        Ok (tt, mkWorld (Some (calculate_fuel_mass_df df)) (disk w)
                  (log w ++ [EngineeredFuelMass]))
    end.
Proof.
  unfold calculate_fuel_mass, bind, get_df.
  destruct (self_df w); reflexivity.
Qed.

Lemma encode_physics_features_eq (w : World) :
  encode_physics_features w
  = match self_df w with
    | None => Raise AttributeError
    | Some df =>
        Ok (tt, mkWorld (Some (fst (encode_physics_features_df df))) (disk w)
                  ((log w
                    ++ [DroppedWetInter (snd (encode_physics_features_df df))])
                   ++ [EngineeredPhysics]))
    end.
Proof.
  unfold encode_physics_features, bind at 1, get_df.
  destruct (self_df w) as [df|]; [|reflexivity].
  destruct (encode_physics_features_df df) as [df' dropped]. reflexivity.
Qed.

Lemma create_target_variable_eq (w : World) :
  create_target_variable w
  = match self_df w with
    | None => Raise AttributeError
    | Some df =>
        match create_target_variable_df df with
        | Raise e => Raise e
        | Ok (out, removed) =>
            Ok (tt, mkWorld (Some out) (disk w)
                      (log w ++ [RemovedOutliers removed]))
        end
    end.
Proof.
  unfold create_target_variable, bind, get_df, lift.
  destruct (self_df w) as [df|]; [|reflexivity].
  destruct (create_target_variable_df df) as [[out removed]|e]; reflexivity.
Qed.

Lemma save_processed_data_eq (w : World) :
  save_processed_data w
  = match self_df w with
    | None => Raise AttributeError
    | Some df =>
        match OS.to_parquet (OS.makedirs (disk w) PROCESSED_DATA_PATH)
                PROCESSED_DATA_PATH OUTPUT_FILE df with
        | Raise e => Raise e
        | Ok d2 =>
            Ok (tt, mkWorld (Some df) d2
                      (log w ++ [Saved PROCESSED_DATA_PATH OUTPUT_FILE
                                   (List.length df)]))
        end
    end.
Proof.
  unfold save_processed_data, bind, get_df, get_disk, set_disk, lift,
    logging_info. cbn [self_df disk log].
  destruct (self_df w) as [df|]; [|reflexivity].
  destruct (OS.to_parquet _ _ _ df) as [d2|e]; reflexivity.
Qed.

(** The state a run leaves, from the disk it starts on: [self.df] and
    the log it starts with have no part in the disk and the table. *)
Lemma run_eq (w : World) :
  run w
  = match run_on_disk (disk w) with
    | Raise e => Raise e
    | Ok (d2, out, entries) =>
        Ok (tt, mkWorld (Some out) d2 (log w ++ entries))
    end.
Proof.
  unfold run, run_on_disk. unfold bind at 1. rewrite load_raw_data_eq.
  destruct (OS.listdir (disk w) RAW_DATA_PATH) as [names|e]; [|reflexivity].
  cbv zeta. destruct (Ingest.is_empty _); [reflexivity|].
  destruct (mapM _ _) as [dfs|e]; [|reflexivity].
  unfold bind at 1. rewrite calculate_fuel_mass_eq. cbn [self_df disk log].
  unfold bind at 1. rewrite encode_physics_features_eq.
  cbn [self_df disk log].
  destruct (encode_physics_features_df _) as [df2 dropped].
  cbn [fst snd].
  unfold bind at 1. rewrite create_target_variable_eq.
  cbn [self_df disk log].
  destruct (create_target_variable_df df2) as [[out removed]|e];
    [|reflexivity].
  rewrite save_processed_data_eq. cbn [self_df disk log].
  destruct (OS.to_parquet _ _ _ out) as [d2|e]; [|reflexivity].
  unfold run_log. rewrite <- !app_assoc. reflexivity.
Qed.

Lemma makedirs_find (d : OS.Disk) (path : string) :
  exists dir, Dict.find path (OS.makedirs d path) = Some dir.
Proof.
  unfold OS.makedirs. destruct (Dict.find path d) as [dir|] eqn:E.
  - exists dir. exact E.
  - exists []. apply find_put_same.
Qed.

Lemma makedirs_other (d : OS.Disk) (path path' : string) :
  path' <> path -> Dict.find path' (OS.makedirs d path) = Dict.find path' d.
Proof.
  intros Hne. unfold OS.makedirs. destruct (Dict.find path d); [reflexivity|].
  apply find_put_other. exact Hne.
Qed.

(** A run writes one file, in the directory of the processed data. *)
Lemma run_on_disk_writes (d d2 : OS.Disk) (out : DataFrame)
    (entries : list LogMsg) :
  run_on_disk d = Ok (d2, out, entries) ->
  exists dir,
    d2 = Dict.put PROCESSED_DATA_PATH
           (Dict.put OUTPUT_FILE (OS.Parquet out) dir)
           (OS.makedirs d PROCESSED_DATA_PATH).
Proof.
  unfold run_on_disk. intros H.
  destruct (OS.listdir d RAW_DATA_PATH); [|discriminate].
  destruct (Ingest.is_empty _); [discriminate|].
  destruct (mapM _ _); [|discriminate].
  destruct (encode_physics_features_df _) as [df2 dropped].
  destruct (create_target_variable_df df2) as [[out' removed]|];
    [|discriminate].
  unfold OS.to_parquet in H.
  destruct (Dict.find PROCESSED_DATA_PATH (OS.makedirs d PROCESSED_DATA_PATH))
    as [dir|]; [|discriminate].
  injection H as <- <- _. exists dir. reflexivity.
Qed.

(** A run started on the disk a run left leaves the same disk, table and
    log entries. *)
Lemma run_on_disk_again (d d2 : OS.Disk) (out : DataFrame)
    (entries : list LogMsg) :
  run_on_disk d = Ok (d2, out, entries) ->
  run_on_disk d2 = Ok (d2, out, entries).
Proof.
  intros H. destruct (run_on_disk_writes d d2 out entries H) as [dir Hd2].
  assert (Hraw : Dict.find RAW_DATA_PATH d2 = Dict.find RAW_DATA_PATH d).
  { rewrite Hd2, find_put_other by exact raw_is_not_processed.
    apply makedirs_other. exact raw_is_not_processed. }
  assert (Hproc : Dict.find PROCESSED_DATA_PATH d2
                  = Some (Dict.put OUTPUT_FILE (OS.Parquet out) dir)).
  { rewrite Hd2. apply find_put_same. }
  assert (Hread : forall f, OS.read_parquet d2 RAW_DATA_PATH f
                            = OS.read_parquet d RAW_DATA_PATH f).
  { intros f. unfold OS.read_parquet. rewrite Hraw. reflexivity. }
  revert H. unfold run_on_disk, OS.listdir. rewrite Hraw.
  destruct (Dict.find RAW_DATA_PATH d) as [rawdir|]; [|discriminate].
  destruct (Ingest.is_empty _); [discriminate|].
  rewrite (map_ext_mapM _ _ Hread).
  destruct (mapM _ _) as [dfs|]; [|discriminate].
  destruct (encode_physics_features_df _) as [df2 dropped].
  destruct (create_target_variable_df df2) as [[out' removed]|];
    [|discriminate].
  intros H.
  assert (Hout : out' = out).
  { destruct (OS.to_parquet _ _ _ out'); [|discriminate].
    injection H as _ Ho _. exact Ho. }
  subst out'.
  assert (Hmk : OS.makedirs d2 PROCESSED_DATA_PATH = d2).
  { unfold OS.makedirs. rewrite Hproc. reflexivity. }
  rewrite Hmk. unfold OS.to_parquet at 1. rewrite Hproc.
  rewrite put_put. rewrite Hd2 at 1. rewrite put_put. rewrite <- Hd2.
  destruct (OS.to_parquet _ _ _ out) as [d2'|]; [|discriminate].
  injection H as _ He. rewrite He. reflexivity.
Qed.

End Run.

(** C7.  A complete run that succeeds leaves its table in the output file,
    and the disk and the table a run leaves depend on the disk it starts
    on only: a run of any [FeatureEngineer] on the same disk, and a run
    started on the disk the first run left, leave the same disk and the
    same table. *)
Theorem run_twice_same_output (w w1 : Features.World) :
  Features.run w = Ok (tt, w1) ->
  (exists out,
     Features.self_df w1 = Some out /\
     OS.read_parquet (Features.disk w1) Features.PROCESSED_DATA_PATH
       Features.OUTPUT_FILE = Ok out) /\
  (forall w',
     Features.disk w' = Features.disk w ->
     exists w1',
       Features.run w' = Ok (tt, w1') /\
       Features.disk w1' = Features.disk w1 /\
       Features.self_df w1' = Features.self_df w1) /\
  (forall w',
     Features.disk w' = Features.disk w1 ->
     exists w2,
       Features.run w' = Ok (tt, w2) /\
       Features.disk w2 = Features.disk w1 /\
       Features.self_df w2 = Features.self_df w1).
Proof.
  rewrite run_eq.
  destruct (Features.run_on_disk (Features.disk w)) as [[[d2 out] entries]|e]
    eqn:E; [|discriminate].
  intros H. injection H as <-. cbn [Features.self_df Features.disk].
  split; [|split].
  - exists out. split; [reflexivity|].
    destruct (run_on_disk_writes _ _ _ _ E) as [dir ->].
    unfold OS.read_parquet. rewrite find_put_same, find_put_same. reflexivity.
  - intros w' Hw'. rewrite run_eq, Hw', E. eexists. split; [reflexivity|].
    split; reflexivity.
  - intros w' Hw'. rewrite run_eq, Hw', (run_on_disk_again _ _ _ _ E).
    eexists. split; [reflexivity|]. split; reflexivity.
Qed.

Lemma run_twice_same_output_witness :
  exists w1 w2,
    Features.run (Features.fresh Examples.raw_disk) = Ok (tt, w1) /\
    Features.run w1 = Ok (tt, w2) /\
    Features.disk w2 = Features.disk w1.
Proof.
  destruct (Features.run (Features.fresh Examples.raw_disk)) as [[[] w1]|e]
    eqn:E; [|vm_compute in E; discriminate E].
  destruct (run_twice_same_output _ _ E) as (_ & _ & Hagain).
  destruct (Hagain w1 eq_refl) as (w2 & Hrun & Hdisk & _).
  exists w1, w2. split; [reflexivity|]. split; [exact Hrun | exact Hdisk].
Defined.

(** ** The numbers of the specification in binary64 *)

Section Binary64Facts.

Import PrimFloat.

(** With IEEE 754 rounding the fuel masses of laps 10, 50 and 55 of a race
    of 50 laps are 73, 5 and 2 (-3.5 before the clip). *)
Lemma binary64_fuel_mass :
  Binary64.clip_lower 2 (Binary64.get_fuel 50 10) = 73%float /\
  Binary64.clip_lower 2 (Binary64.get_fuel 50 50) = 5%float /\
  Binary64.get_fuel 50 55 = (-3.5)%float /\
  Binary64.clip_lower 2 (Binary64.get_fuel 50 55) = 2%float.
Proof. repeat split; vm_compute; reflexivity. Qed.

(** With IEEE 754 rounding the segment through (0, 20) and (100, 30) has
    the value 25 at 50. *)
Lemma binary64_interpolation :
  Binary64.interp_segment 50 0 20 100 30 = 25%float.
Proof. vm_compute. reflexivity. Qed.

(** With IEEE 754 rounding the threshold of a median of 90 is 108: 110 is
    an outlier, 107 and 108 are not. *)
Lemma binary64_outlier_threshold :
  (90 * 1.20)%float = 108%float /\
  Binary64.is_outlier 110 90 = true /\
  Binary64.is_outlier 107 90 = false /\
  Binary64.is_outlier 108 90 = false.
Proof. repeat split; vm_compute; reflexivity. Qed.

End Binary64Facts.

(** * Further properties of the code *)

(** ** Interpolated values stay within the samples *)

Lemma segment_within (lo hi x x0 f0 x1 f1 : Q) :
  x0 <= x -> x < x1 ->
  lo <= f0 -> f0 <= hi -> lo <= f1 -> f1 <= hi ->
  lo <= (f1 - f0) / (x1 - x0) * (x - x0) + f0 /\
  (f1 - f0) / (x1 - x0) * (x - x0) + f0 <= hi.
Proof.
  intros H0 H1 Hl0 Hh0 Hl1 Hh1.
  set (k := (x - x0) / (x1 - x0)).
  assert (Hk0 : 0 <= k) by (apply Qle_shift_div_l; lra).
  assert (Hk1 : k <= 1) by (apply Qle_shift_div_r; lra).
  assert (Hv : (f1 - f0) / (x1 - x0) * (x - x0) + f0
               == (1 - k) * f0 + k * f1) by (unfold k; field; lra).
  rewrite Hv.
  assert (Ha : 0 <= (1 - k) * (f0 - lo))
    by (apply Qmult_le_0_compat; lra).
  assert (Hb : 0 <= k * (f1 - lo)) by (apply Qmult_le_0_compat; lra).
  assert (Hc : 0 <= (1 - k) * (hi - f0))
    by (apply Qmult_le_0_compat; lra).
  assert (Hd : 0 <= k * (hi - f1)) by (apply Qmult_le_0_compat; lra).
  split; lra.
Qed.

Lemma interp_from_within (lo hi x : Q) :
  forall rest x0 f0,
    x0 <= x -> lo <= f0 -> f0 <= hi ->
    Forall (fun p => lo <= snd p /\ snd p <= hi) rest ->
    lo <= Numpy.interp_from x x0 f0 rest /\
    Numpy.interp_from x x0 f0 rest <= hi.
Proof.
  induction rest as [|[x1 f1] rest IH]; intros x0 f0 Hx Hl Hh Hall.
  - simpl. split; assumption.
  - inversion Hall as [|? ? [Hl1 Hh1] Hrest]; subst. simpl in Hl1, Hh1.
    simpl Numpy.interp_from. destruct (Qle_bool x1 x) eqn:E1.
    + apply Qle_bool_iff in E1. apply IH; assumption.
    + apply Qle_bool_false in E1.
      destruct (Qeq_bool x0 x); [split; assumption|].
      apply segment_within; assumption.
Qed.

Lemma last_In {A : Type} (l : list A) (d : A) :
  l <> [] -> In (last l d) l.
Proof.
  induction l as [|a l IH]; [congruence|]. intros _.
  destruct l as [|b l]; [left; reflexivity|].
  right. apply IH. discriminate.
Qed.

Lemma interp1_within (lo hi x : Q) (xp fp : list Q) (v : Q) :
  Forall (fun f => lo <= f /\ f <= hi) fp ->
  Numpy.interp1 x xp fp = Ok v -> lo <= v /\ v <= hi.
Proof.
  intros Hall. unfold Numpy.interp1.
  destruct (negb (Nat.eqb (List.length xp) (List.length fp)));
    [discriminate|].
  assert (Hc : Forall (fun p => lo <= snd p /\ snd p <= hi) (combine xp fp)).
  { apply Forall_forall. intros [a b] Hin. apply in_combine_r in Hin.
    rewrite Forall_forall in Hall. exact (Hall b Hin). }
  destruct (combine xp fp) as [|[x0 f0] rest]; [discriminate|].
  inversion Hc as [|? ? [Hl0 Hh0] Hrest]; subst. simpl in Hl0, Hh0.
  destruct (last rest (x0, f0)) as [xn fn] eqn:El.
  assert (Hn : lo <= fn /\ fn <= hi).
  { destruct rest as [|p rest'].
    - simpl in El. injection El as <- <-. split; assumption.
    - assert (Hin : In (xn, fn) (p :: rest')).
      { rewrite <- El. apply last_In. discriminate. }
      rewrite Forall_forall in Hrest. exact (Hrest _ Hin). }
  destruct (Qlt_bool xn x); [intros H; injection H as <-; exact Hn|].
  destruct (Qlt_bool x x0) eqn:E0;
    [intros H; injection H as <-; split; assumption|].
  apply Qlt_bool_false in E0. intros H. injection H as <-.
  apply interp_from_within; assumption.
Qed.

Lemma enrich_channel_values (session : FastF1.Session)
    (out : list Ingest.EnrichedLap) :
  Ingest.enrich_laps_with_weather session = Ok out ->
  FastF1.weather_data session <> [] /\
  map Ingest.lap out = FastF1.laps session /\
  Forall (fun e =>
            forall ch col, In (ch, col) channel_columns ->
              channel_value (FastF1.weather_data session) ch (Ingest.lap e)
                (col e)) out.
Proof.
  intros Hout.
  assert (Hne : FastF1.weather_data session <> []).
  { intros Hw. rewrite (enrich_empty_weather session Hw) in Hout.
    discriminate. }
  split; [exact Hne|].
  destruct (enrich_nonempty_weather session Hne) as (out' & Ho' & Hmap & Hall).
  rewrite Hout in Ho'. injection Ho' as <-. split; [exact Hmap|].
  eapply Forall_impl; [|exact Hall]. simpl.
  intros e (_ & Ha & Ht & Hh & Hr) ch col Hin.
  unfold channel_columns in Hin. simpl in Hin.
  destruct Hin as [H|[H|[H|[H|[]]]]]; injection H as <- <-; assumption.
Qed.

(** X1.  On a weather series sorted by time, each weather column of each
    enriched lap lies between any two bounds that hold for all the samples
    of its channel: interpolation and clamping never leave the range of
    the measured values. *)
Theorem enrich_laps_with_weather_within_samples (session : FastF1.Session)
    (out : list Ingest.EnrichedLap) (lo hi : Q) :
  Spec.sorted_by_time (FastF1.weather_data session) ->
  Ingest.enrich_laps_with_weather session = Ok out ->
  forall ch col,
    In (ch, col) channel_columns ->
    Forall (fun s => lo <= ch s /\ ch s <= hi) (FastF1.weather_data session) ->
    Forall (fun e => lo <= col e /\ col e <= hi) out.
Proof.
  intros _ Hout ch col Hin Hrange.
  destruct (enrich_channel_values session out Hout) as (_ & _ & Hall).
  eapply Forall_impl; [|exact Hall]. simpl. intros e He.
  destruct (He ch col Hin) as [Hv _].
  apply (interp1_within lo hi _ _ _ _ (proj2 (Forall_map _ _ _) Hrange) Hv).
Qed.

Lemma enrich_laps_with_weather_within_samples_witness :
  exists out,
    Ingest.enrich_laps_with_weather
      (Examples.session_of [Examples.lap_at 50; Examples.in_lap]
         Examples.weather_0_100) = Ok out /\
    Forall (fun e => 20 <= Ingest.E_TrackTemp e /\ Ingest.E_TrackTemp e <= 30)
           out.
Proof.
  destruct (Ingest.enrich_laps_with_weather
              (Examples.session_of [Examples.lap_at 50; Examples.in_lap]
                 Examples.weather_0_100)) as [out|e] eqn:E;
    [|vm_compute in E; discriminate E].
  exists out. split; [reflexivity|].
  apply (enrich_laps_with_weather_within_samples
           (Examples.session_of [Examples.lap_at 50; Examples.in_lap]
              Examples.weather_0_100) out 20 30) with
    (ch := FastF1.Weather.TrackTemp); [|exact E| |].
  - unfold Spec.sorted_by_time. simpl. repeat constructor.
    unfold Qle. simpl. lia.
  - right. left. reflexivity.
  - simpl. repeat constructor; unfold Qle; simpl; lia.
Defined.

(** ** Interpolation passes through the samples *)

Lemma series_app (ch : FastF1.Weather.Sample -> Q) w1 w2 :
  Spec.series ch (w1 ++ w2) = Spec.series ch w1 ++ Spec.series ch w2.
Proof. unfold Spec.series. apply map_app. Qed.

Lemma sample_piecewise_linear (ch : FastF1.Weather.Sample -> Q)
    (w : list FastF1.Weather.Sample) (s : FastF1.Weather.Sample) (t : Q) :
  Spec.increasing_by_time w -> In s w -> t == FastF1.Weather.Time s ->
  Spec.piecewise_linear (Spec.series ch w) t (ch s).
Proof.
  intros Hinc Hin Ht. apply in_split in Hin.
  destruct Hin as (front & rest & ->).
  destruct rest as [|s1 rest].
  - apply Spec.pl_right with (tn := FastF1.Weather.Time s) (vn := ch s)
                             (front := Spec.series ch front);
      [rewrite series_app; reflexivity | lra | reflexivity].
  - assert (Hlt : FastF1.Weather.Time s < FastF1.Weather.Time s1).
    { unfold Spec.increasing_by_time in Hinc. rewrite map_app in Hinc.
      apply increasing_suffix in Hinc. simpl in Hinc.
      apply (increasing_head_lt _ _ _ Hinc). left. reflexivity. }
    apply Spec.pl_segment with
      (t0 := FastF1.Weather.Time s) (v0 := ch s)
      (t1 := FastF1.Weather.Time s1) (v1 := ch s1)
      (front := Spec.series ch front) (rest := Spec.series ch rest);
      [rewrite series_app; reflexivity | lra | lra | exact Hlt |].
    rewrite Ht. field. lra.
Qed.

(** X2.  On a weather series whose times increase strictly, a lap that
    ends at the time of a sample receives the values of that sample. *)
Theorem enrich_laps_with_weather_at_sample (session : FastF1.Session)
    (out : list Ingest.EnrichedLap) (e : Ingest.EnrichedLap)
    (s : FastF1.Weather.Sample) :
  Spec.increasing_by_time (FastF1.weather_data session) ->
  Ingest.enrich_laps_with_weather session = Ok out ->
  In e out -> In s (FastF1.weather_data session) ->
  FastF1.Laps.Time (Ingest.lap e) == FastF1.Weather.Time s ->
  forall ch col, In (ch, col) channel_columns -> col e == ch s.
Proof.
  intros Hinc Hout He Hs Ht ch col Hin.
  destruct (enrich_channel_values session out Hout) as (_ & _ & Hall).
  rewrite Forall_forall in Hall. specialize (Hall e He ch col Hin).
  symmetry.
  apply (channel_value_determined _ ch (Ingest.lap e) (col e) (ch s) Hinc Hall).
  apply sample_piecewise_linear; assumption.
Qed.

Lemma enrich_laps_with_weather_at_sample_witness :
  exists e,
    Ingest.enrich_laps_with_weather
      (Examples.session_of [Examples.lap_at 100] Examples.weather_0_100)
    = Ok [e] /\ Ingest.E_Humidity e == 30.
Proof.
  exists (Ingest.mkEnriched (Examples.lap_at 100) 100 30 30 30 30).
  split; [vm_compute; reflexivity|].
  apply (enrich_laps_with_weather_at_sample
           (Examples.session_of [Examples.lap_at 100] Examples.weather_0_100)
           [Ingest.mkEnriched (Examples.lap_at 100) 100 30 30 30 30]
           _ (Examples.sample 100 30))
    with (ch := FastF1.Weather.Humidity).
  - unfold Spec.increasing_by_time. simpl. repeat constructor.
  - vm_compute. reflexivity.
  - left. reflexivity.
  - right. left. reflexivity.
  - reflexivity.
  - right. right. left. reflexivity.
Defined.

(** ** Rounds and seasons *)

(** X3.  A round of the loop of [process_season] is skipped exactly when
    the session fails to load, when no lap of the session passes the
    filter, or when the session has no weather sample. *)
Theorem process_round_skipped_iff (src : FastF1.Provider) (year : Z)
    (race : FastF1.Schedule.Event) :
  Ingest.process_round src year race = None <->
  (exists e,
     FastF1.get_session src year (FastF1.Schedule.RoundNumber race) = Raise e)
  \/
  (exists session,
     FastF1.get_session src year (FastF1.Schedule.RoundNumber race)
       = Ok session /\
     (FastF1.pick_wo_box (FastF1.pick_accurate (FastF1.laps session)) = [] \/
      FastF1.weather_data session = [])).
Proof.
  unfold Ingest.process_round.
  destruct (FastF1.get_session src year (FastF1.Schedule.RoundNumber race))
    as [session|e].
  - destruct (FastF1.pick_wo_box (FastF1.pick_accurate (FastF1.laps session)))
      as [|l ls] eqn:Eclean; simpl Ingest.is_empty; cbv iota.
    + split; [|reflexivity]. intros _. right. exists session. auto.
    + destruct (FastF1.weather_data session) as [|s w] eqn:Ew.
      * rewrite (enrich_empty_weather session Ew).
        split; [|reflexivity]. intros _. right. exists session. auto.
      * destruct (enrich_nonempty_weather session) as (out & -> & _);
          [rewrite Ew; discriminate|].
        split; [discriminate|].
        intros [[e He]|(session' & Hs & [H|H])]; try discriminate.
        -- injection Hs as <-. rewrite Eclean in H. discriminate.
        -- injection Hs as <-. rewrite Ew in H. discriminate.
  - split; [|reflexivity]. intros _. left. exists e. reflexivity.
Qed.

Lemma collect_rounds_nil (src : FastF1.Provider) (year : Z)
    (races : list FastF1.Schedule.Event) :
  Ingest.collect_rounds src year races = [] <->
  forall race, In race races -> Ingest.process_round src year race = None.
Proof.
  induction races as [|race races IH]; simpl.
  - split; [intros _ race [] | reflexivity].
  - destruct (Ingest.process_round src year race) as [df|] eqn:E.
    + split; [discriminate|]. intros H.
      specialize (H race (or_introl eq_refl)). congruence.
    + rewrite IH. split.
      * intros H race' [<-|Hin]; [exact E | apply H; exact Hin].
      * intros H race' Hin. apply H. right. exact Hin.
Qed.

Lemma process_round_nonempty (src : FastF1.Provider) (year : Z)
    (race : FastF1.Schedule.Event) (df : DataFrame) :
  Ingest.process_round src year race = Some df -> df <> [].
Proof.
  intros H. destruct (process_round_all_laps _ _ _ _ H)
    as (session & out & _ & Hclean & _ & Hmap & ->).
  intros Hnil. apply map_eq_nil in Hnil. subst out. simpl in Hmap.
  apply Hclean. rewrite <- Hmap. reflexivity.
Qed.

(** X4.  [process_season] returns [None] exactly when every round of the
    schedule that is not a testing event is skipped, and the table it
    returns otherwise has at least one row: an empty season table is never
    returned. *)
Theorem process_season_none_iff (src : FastF1.Provider) (year : Z) :
  (Ingest.process_season src year = None <->
   forall race,
     In race (FastF1.get_event_schedule src year) ->
     FastF1.Schedule.EventFormat race <> "testing"%string ->
     Ingest.process_round src year race = None) /\
  Ingest.process_season src year <> Some [].
Proof.
  unfold Ingest.process_season. split.
  - destruct (Ingest.collect_rounds src year
                (filter Ingest.is_race (FastF1.get_event_schedule src year)))
      as [|df dfs] eqn:E; simpl Ingest.is_empty; cbv iota.
    + split; [|reflexivity]. intros _ race Hin Hfmt.
      apply (proj1 (collect_rounds_nil _ _ _) E). apply filter_In.
      split; [exact Hin|]. unfold Ingest.is_race.
      apply negb_true_iff. apply String.eqb_neq. exact Hfmt.
    + split; [discriminate|]. intros H. exfalso.
      assert (Hnil : Ingest.collect_rounds src year
                       (filter Ingest.is_race
                          (FastF1.get_event_schedule src year)) = []).
      { apply collect_rounds_nil. intros race Hin.
        apply filter_In in Hin. destruct Hin as [Hin Hfmt].
        apply H; [exact Hin|]. unfold Ingest.is_race in Hfmt.
        apply negb_true_iff in Hfmt. apply String.eqb_neq. exact Hfmt. }
      congruence.
  - destruct (Ingest.collect_rounds src year
                (filter Ingest.is_race (FastF1.get_event_schedule src year)))
      as [|df dfs] eqn:E; simpl Ingest.is_empty; cbv iota; [discriminate|].
    intros H. injection H as H. apply map_eq_nil in H. simpl in H.
    apply app_eq_nil in H. destruct H as [Hdf _].
    assert (Hin : In df (Ingest.collect_rounds src year
                           (filter Ingest.is_race
                              (FastF1.get_event_schedule src year))))
      by (rewrite E; left; reflexivity).
    apply collect_rounds_In in Hin. destruct Hin as (race & _ & Hround).
    exact (process_round_nonempty _ _ _ _ Hround Hdf).
Qed.



Lemma process_round_skipped_iff_witness :
  Ingest.process_round
    (FastF1.mkProvider (fun _ => [Examples.monaco])
       (fun _ _ => Raise SourceError)) 2023 Examples.monaco = None.
Proof.
  apply (proj2 (process_round_skipped_iff _ 2023 Examples.monaco)).
  left. exists SourceError. reflexivity.
Defined.

Lemma process_season_none_iff_witness :
  Ingest.process_season
    (FastF1.mkProvider (fun _ => [Examples.monaco])
       (fun _ _ => Raise SourceError)) 2023 = None.
Proof.
  apply (proj2 (proj1 (process_season_none_iff _ 2023))).
  intros race _ _. reflexivity.
Defined.

(** ** The fuel mass *)

Section FuelMassMore.

Import Pandas Features.

Lemma total_laps_ge (df : DataFrame) (r : Row) (k : Key) (L : Q) :
  In r df -> row_key r = Some k -> LapNumber r = Some L ->
  exists t,
    dict_get (race_lengths df) (row_key r) (Some 55) = Some t /\ L <= t.
Proof.
  intros Hin Hk HL. unfold dict_get, race_lengths.
  rewrite Hk, (lookup_groupby _ _ df r k Hin Hk).
  assert (HinL : In L (dropna (map LapNumber (group df k))))
    by (apply in_group_column with (r := r); assumption).
  destruct (list_max_nonempty (dropna (map LapNumber (group df k))))
    as [m Hm].
  { intros E. rewrite E in HinL. destruct HinL. }
  rewrite Hm. exists m. split; [reflexivity|].
  apply (proj2 (list_max_spec _ _ Hm)). exact HinL.
Qed.

Lemma group_keys_map (g : Row -> Row) (df : DataFrame) :
  (forall r, row_key (g r) = row_key r) ->
  group_keys (map g df) = group_keys df.
Proof.
  intros Hg. induction df as [|r df IH]; simpl; [reflexivity|].
  rewrite Hg, IH. reflexivity.
Qed.

Lemma group_map (g : Row -> Row) (df : DataFrame) (k : Key) :
  (forall r, row_key (g r) = row_key r) ->
  group (map g df) k = map g (group df k).
Proof.
  intros Hg. unfold group. rewrite filter_map_swap. f_equal.
  apply filter_ext. intros r. unfold in_group. rewrite Hg. reflexivity.
Qed.

(** A group-by result reads the keys and one column only. *)
Lemma groupby_agg_map col agg (g : Row -> Row) (df : DataFrame) :
  (forall r, row_key (g r) = row_key r) ->
  (forall r, col (g r) = col r) ->
  groupby_agg col agg (map g df) = groupby_agg col agg df.
Proof.
  intros Hg Hcol. unfold groupby_agg. rewrite (group_keys_map g df Hg).
  apply map_ext. intros k. rewrite (group_map g df k Hg), map_map.
  do 3 f_equal. apply map_ext. exact Hcol.
Qed.

End FuelMassMore.

(** X6.  After [calculate_fuel_mass] the fuel mass of a row is missing
    exactly when its lap number is missing; a fuel mass that is present is
    at least 2, and at least 5 when the row has a season and an event: the
    floor of 2 can only apply to a row that belongs to no race. *)
Theorem calculate_fuel_mass_floor (df : DataFrame) (r' : Row) :
  In r' (Features.calculate_fuel_mass_df df) ->
  (FuelMass r' = None <-> LapNumber r' = None) /\
  (forall f, FuelMass r' = Some f -> 2 <= f /\ (has_key r' -> 5 <= f)).
Proof.
  rewrite calculate_fuel_mass_df_rows. intros Hin.
  apply in_map_iff in Hin. destruct Hin as (r & <- & Hr). simpl.
  unfold Features.get_fuel, has_key.
  change (Pandas.row_key (Features.set_FuelMass _ r)) with (Pandas.row_key r).
  destruct (LapNumber r) as [L|] eqn:HL.
  - destruct (total_laps_lookup df r L Hr HL) as (t & Ht & _).
    rewrite Ht. simpl. split; [split; discriminate|].
    intros f Hf. injection Hf as <-.
    destruct (Qlt_bool ((t - L) * 1.7 + 5) 2.0) eqn:E.
    + apply Qlt_bool_iff in E. split; [lra|]. intros Hkey.
      destruct (Pandas.row_key r) as [k|] eqn:Hk; [|congruence].
      destruct (total_laps_ge df r k L Hr Hk HL) as (t' & Ht' & Hle).
      rewrite Hk in Ht'. rewrite Ht' in Ht. injection Ht as ->. lra.
    + apply Qlt_bool_false in E. split; [lra|]. intros Hkey.
      destruct (Pandas.row_key r) as [k|] eqn:Hk; [|congruence].
      destruct (total_laps_ge df r k L Hr Hk HL) as (t' & Ht' & Hle).
      rewrite Hk in Ht'. rewrite Ht' in Ht. injection Ht as ->. lra.
  - destruct (Pandas.dict_get _ _ _); simpl;
      (split; [split; reflexivity | discriminate]).
Qed.

Lemma calculate_fuel_mass_floor_witness :
  exists f,
    FuelMass (nth 4 (Features.calculate_fuel_mass_df Examples.race_of_50)
                (Examples.row 0 "" 0 "" None 0)) = Some f /\
    5 <= f.
Proof.
  destruct (calculate_fuel_mass_floor Examples.race_of_50
              (nth 4 (Features.calculate_fuel_mass_df Examples.race_of_50)
                 (Examples.row 0 "" 0 "" None 0))) as [_ H].
  - do 4 right. left. reflexivity.
  - eexists. split; [vm_compute; reflexivity|].
    eapply H; [vm_compute; reflexivity | vm_compute; discriminate].
Defined.

(** X7.  [calculate_fuel_mass] is idempotent: the race lengths are read
    from the lap numbers, which it leaves alone, so a second call assigns
    the same fuel masses. *)
Theorem calculate_fuel_mass_idempotent (df : DataFrame) :
  Features.calculate_fuel_mass_df (Features.calculate_fuel_mass_df df)
  = Features.calculate_fuel_mass_df df.
Proof.
  rewrite !calculate_fuel_mass_df_rows.
  set (g := fun r => Features.set_FuelMass
                       (Pandas.clip_lower 2.0
                          (Features.get_fuel (Features.race_lengths df) r)) r).
  assert (Hrl : Features.race_lengths (map g df) = Features.race_lengths df).
  { unfold Features.race_lengths. apply groupby_agg_map; intros r;
      reflexivity. }
  rewrite Hrl, map_map. apply map_ext. intros r. reflexivity.
Qed.

(** ** The track temperature *)

Section TrackTemp.

Import Pandas Features.

Lemma encode_physics_features_df_explicit (df : DataFrame) :
  encode_physics_features_df df
  = (map (encoded (map scored_aged (filter keeps df))) (filter keeps df),
     List.length (filter (fun r => negb (keeps r)) df)).
Proof.
  unfold encode_physics_features_df.
  rewrite filter_map_swap, !length_map.
  assert (Hk : forall df0,
             filter (fun a => softness_positive
                 (set_Compound_Softness (map_compound (Compound a)) a)) df0
             = filter keeps df0).
  { intros df0. apply filter_ext. intros r. unfold softness_positive, keeps.
    simpl. rewrite map_compound_score. reflexivity. }
  rewrite Hk, filter_negb_length, !map_map.
  assert (Hpre : map (fun x =>
                        set_TyreAge
                          (Some (astype_int
                             (fillna 1
                                (TyreLife
                                   (set_Compound_Softness
                                      (map_compound (Compound x)) x)))))
                          (set_Compound_Softness (map_compound (Compound x)) x))
                     (filter keeps df)
                 = map scored_aged (filter keeps df)).
  { apply map_ext. intros r. unfold scored_aged.
    rewrite map_compound_score. reflexivity. }
  rewrite Hpre. f_equal. apply map_ext. intros r. unfold encoded.
  rewrite map_compound_score. reflexivity.
Qed.

Lemma fill_TrackTemp_map (g : Row -> Row) (l : DataFrame) (r : Row) :
  (forall r, row_key (g r) = row_key r) ->
  (forall r, TrackTemp (g r) = TrackTemp r) ->
  fill_TrackTemp (map g l) r = fill_TrackTemp l r.
Proof.
  intros Hk Ht. unfold fill_TrackTemp.
  destruct (row_key r) as [k|]; [|reflexivity].
  destruct (TrackTemp r); [reflexivity|].
  rewrite (group_map g l k Hk), map_map. do 2 f_equal.
  apply map_ext. exact Ht.
Qed.

(** The track temperature [encode_physics_features] gives a row it keeps,
    from the rows it keeps. *)
Lemma TrackTemp_encoded (kept : DataFrame) (r : Row) :
  TrackTemp (encoded (map scored_aged kept) r) = fill_TrackTemp kept r.
Proof.
  unfold encoded. simpl TrackTemp.
  rewrite (fill_TrackTemp_map scored_aged kept);
    [reflexivity | intros r0; reflexivity | intros r0; reflexivity].
Qed.

Lemma median_none (l : list Q) : median l = None -> l = [].
Proof.
  intros H. destruct l as [|x l]; [reflexivity|].
  destruct (median_nonempty (x :: l)) as [m Hm]; [discriminate|]. congruence.
Qed.

Lemma median_upper_bound (l : list Q) (m hi : Q) :
  median l = Some m -> (forall y, In y l -> y <= hi) -> m <= hi.
Proof.
  unfold median. rewrite sort_length. intros Hm Hhi.
  assert (Hnth : forall i, (i < List.length l)%nat -> nth i (sort l) 0 <= hi).
  { intros i Hi. apply Hhi. apply sort_In. apply nth_In.
    rewrite sort_length. exact Hi. }
  destruct (List.length l) as [|n] eqn:En; [discriminate|].
  assert (Hhalf : (S n / 2 < S n)%nat)
    by (apply Nat.div_lt; lia).
  cbv iota in Hm. set (h := (S n / 2)%nat) in *. clearbody h.
  pose proof (Hnth h Hhalf) as H1.
  pose proof (Hnth (h - 1)%nat ltac:(lia)) as H2.
  destruct (Nat.odd (S n)); injection Hm as <-; [exact H1|].
  apply Qle_shift_div_r; [reflexivity | lra].
Qed.

(** A missing track temperature stays missing only when no row of the
    group has one. *)
Lemma fill_TrackTemp_none (kept : DataFrame) (r : Row) (k : Key) :
  In r kept -> row_key r = Some k -> fill_TrackTemp kept r = None ->
  forall r0, In r0 kept -> row_key r0 = Some k -> TrackTemp r0 = None.
Proof.
  unfold fill_TrackTemp. intros Hin Hk. rewrite Hk.
  destruct (TrackTemp r) as [t|] eqn:Et; [discriminate|].
  intros Hm r0 Hin0 Hk0. apply median_none in Hm.
  destruct (TrackTemp r0) as [t0|] eqn:Et0; [|reflexivity].
  pose proof (in_group_column TrackTemp kept r0 k t0 Hin0 Hk0 Et0) as H.
  rewrite Hm in H. destruct H.
Qed.

Lemma fill_TrackTemp_all_or_none (kept : DataFrame) (r1 r2 : Row) :
  In r1 kept -> In r2 kept -> row_key r1 = row_key r2 ->
  fill_TrackTemp kept r1 = None -> fill_TrackTemp kept r2 = None.
Proof.
  intros H1 H2 Hk Hnone.
  destruct (row_key r1) as [k|] eqn:Hk1.
  - pose proof (fill_TrackTemp_none kept r1 k H1 Hk1 Hnone) as Hall.
    unfold fill_TrackTemp. rewrite <- Hk.
    rewrite (Hall r2 H2 (eq_sym Hk)).
    assert (Hvals : dropna (map TrackTemp (group kept k)) = []).
    { destruct (dropna (map TrackTemp (group kept k))) as [|t ts] eqn:E;
        [reflexivity|].
      assert (Hin : In t (dropna (map TrackTemp (group kept k))))
        by (rewrite E; left; reflexivity).
      apply group_column_from in Hin.
      destruct Hin as (r0 & Hr0 & Hk0 & Ht0).
      rewrite (Hall r0 Hr0 Hk0) in Ht0. discriminate. }
    rewrite Hvals. reflexivity.
  - unfold fill_TrackTemp. rewrite <- Hk. reflexivity.
Qed.

End TrackTemp.

(** X8.  After [encode_physics_features] a track temperature that was
    measured is unchanged on a row that has a season and an event; and of
    two rows of one (season, event) group either both have a track
    temperature or neither has: the median fills every gap of a group
    unless the whole group is without track temperature. *)
Theorem encode_physics_features_TrackTemp (df : DataFrame) :
  Forall2 (fun r r' =>
             has_key r -> forall t, TrackTemp r = Some t ->
             TrackTemp r' = Some t)
          (filter keeps df) (fst (Features.encode_physics_features_df df)) /\
  (forall r1 r2,
     In r1 (fst (Features.encode_physics_features_df df)) ->
     In r2 (fst (Features.encode_physics_features_df df)) ->
     has_key r1 -> Year r1 = Year r2 -> EventName r1 = EventName r2 ->
     (TrackTemp r1 = None <-> TrackTemp r2 = None)).
Proof.
  rewrite encode_physics_features_df_explicit. simpl fst.
  set (kept := filter keeps df). split.
  - apply Forall2_map_self. intros r _ Hkey t Ht.
    rewrite TrackTemp_encoded. unfold Features.fill_TrackTemp, has_key in *.
    destruct (Pandas.row_key r); [|congruence]. rewrite Ht. reflexivity.
  - intros r1' r2' H1 H2 _ Hy He.
    apply in_map_iff in H1. destruct H1 as (r1 & <- & H1).
    apply in_map_iff in H2. destruct H2 as (r2 & <- & H2).
    rewrite !TrackTemp_encoded.
    assert (Hk : Pandas.row_key r1 = Pandas.row_key r2).
    { unfold Pandas.row_key. simpl in Hy, He. rewrite Hy, He. reflexivity. }
    split; apply fill_TrackTemp_all_or_none; auto.
Qed.

Lemma encode_physics_features_TrackTemp_witness :
  Forall (fun r' => TrackTemp r' = Some 35)
         (fst (Features.encode_physics_features_df Examples.four_compounds)).
Proof.
  destruct (encode_physics_features_TrackTemp Examples.four_compounds)
    as [H _].
  simpl in H. inversion H as [|r1 r1' l1 l1' H1 Hrest]; subst.
  inversion Hrest as [|r2 r2' l2 l2' H2 _]; subst.
  constructor; [apply H1; [discriminate | reflexivity]|].
  constructor; [apply H2; [discriminate | reflexivity]|].
  constructor.
Defined.

(** X9.  After [encode_physics_features] every track temperature lies
    between any two bounds that hold for the track temperatures of the
    input table: an imputed value is never outside the measured range. *)
Theorem encode_physics_features_TrackTemp_range (df : DataFrame) (lo hi : Q) :
  (forall r t, In r df -> TrackTemp r = Some t -> lo <= t /\ t <= hi) ->
  forall r' t,
    In r' (fst (Features.encode_physics_features_df df)) ->
    TrackTemp r' = Some t -> lo <= t /\ t <= hi.
Proof.
  rewrite encode_physics_features_df_explicit. simpl fst.
  intros Hrange r' t Hin. apply in_map_iff in Hin.
  destruct Hin as (r & <- & Hr). rewrite TrackTemp_encoded.
  apply filter_In in Hr. destruct Hr as [Hr _].
  unfold Features.fill_TrackTemp.
  destruct (Pandas.row_key r) as [k|]; [|discriminate].
  destruct (TrackTemp r) as [t0|] eqn:Et.
  - intros H. injection H as <-. exact (Hrange r t0 Hr Et).
  - intros Hm.
    assert (Hvals : forall y,
               In y (Pandas.dropna
                       (map TrackTemp (Pandas.group (filter keeps df) k))) ->
               lo <= y /\ y <= hi).
    { intros y Hy. apply group_column_from in Hy.
      destruct Hy as (r0 & Hr0 & _ & Hy). apply filter_In in Hr0.
      exact (Hrange r0 y (proj1 Hr0) Hy). }
    split.
    + apply (median_lower_bound _ t lo Hm). intros y Hy. apply Hvals, Hy.
    + apply (median_upper_bound _ t hi Hm). intros y Hy. apply Hvals, Hy.
Qed.

Lemma encode_physics_features_TrackTemp_range_witness :
  Forall (fun r' => forall t, TrackTemp r' = Some t -> 30 <= t /\ t <= 40)
         (fst (Features.encode_physics_features_df Examples.four_compounds)).
Proof.
  apply Forall_forall. intros r' Hin t Ht.
  apply (encode_physics_features_TrackTemp_range Examples.four_compounds
           30 40) with (r' := r'); [|exact Hin | exact Ht].
  intros r t0 Hr Ht0. simpl in Hr.
  repeat (destruct Hr as [<-|Hr];
          [injection Ht0 as <-; split; unfold Qle; simpl; lia|]).
  destruct Hr.
Defined.

Section EncodeTwice.

Import Pandas Features.

Lemma keeps_encoded (D : DataFrame) (r : Row) : keeps (encoded D r) = keeps r.
Proof. reflexivity. Qed.

Lemma filter_all {A : Type} (f : A -> bool) (l : list A) :
  (forall a, In a l -> f a = true) -> filter f l = l.
Proof.
  induction l as [|a l IH]; intros H; simpl; [reflexivity|].
  rewrite (H a (or_introl eq_refl)), IH; [reflexivity|].
  intros a' Ha'. apply H. right. exact Ha'.
Qed.

Lemma filter_none {A : Type} (f : A -> bool) (l : list A) :
  (forall a, In a l -> f a = false) -> filter f l = [].
Proof.
  induction l as [|a l IH]; intros H; simpl; [reflexivity|].
  rewrite (H a (or_introl eq_refl)). apply IH.
  intros a' Ha'. apply H. right. exact Ha'.
Qed.

(** On the rows [encode_physics_features] returns, the track temperature
    it would fill in is the one they have. *)
Lemma fill_TrackTemp_filled (kept : DataFrame) (r : Row) :
  In r kept ->
  fill_TrackTemp (map (encoded (map scored_aged kept)) kept)
    (encoded (map scored_aged kept) r)
  = TrackTemp (encoded (map scored_aged kept) r).
Proof.
  intros Hin. set (out := map (encoded (map scored_aged kept)) kept).
  rewrite TrackTemp_encoded. unfold fill_TrackTemp at 1.
  change (row_key (encoded (map scored_aged kept) r)) with (row_key r).
  rewrite TrackTemp_encoded.
  destruct (row_key r) as [k|] eqn:Hk;
    [|unfold fill_TrackTemp; rewrite Hk; reflexivity].
  destruct (fill_TrackTemp kept r) as [t|] eqn:Ef; [reflexivity|].
  assert (Hvals : dropna (map TrackTemp (group out k)) = []).
  { destruct (dropna (map TrackTemp (group out k))) as [|t ts] eqn:E;
      [reflexivity|].
    assert (Ht : In t (dropna (map TrackTemp (group out k))))
      by (rewrite E; left; reflexivity).
    apply group_column_from in Ht. destruct Ht as (r0' & Hr0' & Hk0 & Ht0).
    unfold out in Hr0'. apply in_map_iff in Hr0'.
    destruct Hr0' as (r0 & <- & Hr0).
    rewrite TrackTemp_encoded in Ht0.
    change (row_key (encoded (map scored_aged kept) r0)) with (row_key r0)
      in Hk0.
    rewrite (fill_TrackTemp_all_or_none kept r r0 Hin Hr0) in Ht0;
      [discriminate | congruence | exact Ef]. }
  rewrite Hvals. reflexivity.
Qed.

Lemma encoded_again (kept : DataFrame) (r : Row) :
  In r kept ->
  encoded (map scored_aged (map (encoded (map scored_aged kept)) kept))
    (encoded (map scored_aged kept) r)
  = encoded (map scored_aged kept) r.
Proof.
  intros Hin. set (D := map scored_aged kept).
  set (out := map (encoded D) kept).
  assert (Hsa : scored_aged (encoded D r) = encoded D r) by reflexivity.
  unfold encoded at 1.
  change (set_TyreAge
            (Some (astype_int
               (fillna 1
                  (TyreLife
                     (set_Compound_Softness
                        (Spec.score (Compound (encoded D r)))
                        (encoded D r))))))
            (set_Compound_Softness (Spec.score (Compound (encoded D r)))
               (encoded D r)))
    with (scored_aged (encoded D r)).
  cbv zeta. rewrite Hsa.
  rewrite (fill_TrackTemp_map scored_aged out);
    [|intros r0; reflexivity | intros r0; reflexivity].
  unfold out, D. rewrite (fill_TrackTemp_filled kept r Hin).
  reflexivity.
Qed.

End EncodeTwice.

(** X10.  [encode_physics_features] is idempotent: called on the table it
    returned it drops no row and changes no column. *)
Theorem encode_physics_features_idempotent (df : DataFrame) :
  Features.encode_physics_features_df
    (fst (Features.encode_physics_features_df df))
  = (fst (Features.encode_physics_features_df df), 0%nat).
Proof.
  rewrite (encode_physics_features_df_explicit df). simpl fst.
  set (kept := filter keeps df).
  set (out := map (encoded (map scored_aged kept)) kept).
  rewrite (encode_physics_features_df_explicit out).
  assert (Hkeep : forall r', In r' out -> keeps r' = true).
  { intros r' Hin. unfold out in Hin. apply in_map_iff in Hin.
    destruct Hin as (r & <- & Hr). rewrite keeps_encoded.
    unfold kept in Hr. apply filter_In in Hr. apply Hr. }
  rewrite (filter_all keeps out Hkeep).
  rewrite (filter_none (fun r => negb (keeps r)) out);
    [|intros r' Hin; rewrite (Hkeep r' Hin); reflexivity].
  simpl List.length. apply f_equal2; [|reflexivity].
  unfold out at 2 3. rewrite map_map.
  apply map_ext_in. intros r Hr. unfold out. apply encoded_again. exact Hr.
Qed.

(** ** The outlier filter: errors and accounting *)

(** X11.  [create_target_variable] raises exactly when some row of the
    table has no season or no event, and the exception is then
    [KeyError]. *)
Theorem create_target_variable_raises_iff (df : DataFrame) (e : Exn) :
  Features.create_target_variable_df df = Raise e <->
  e = KeyError /\ exists r, In r df /\ Pandas.row_key r = None.
Proof.
  destruct (create_target_variable_df_cases df) as [[E Hkey]|[E Hex]];
    rewrite E.
  - split; [discriminate|]. intros (_ & r & Hin & Hk).
    exfalso. exact (Hkey r Hin Hk).
  - split.
    + intros H. injection H as <-. split; [reflexivity | exact Hex].
    + intros [-> _]. reflexivity.
Qed.

Lemma create_target_variable_raises_iff_witness :
  Features.create_target_variable_df
    [Examples.no_event
       (Examples.row 2023 "Monaco Grand Prix" 41 "HARD" (Some 34) 91)]
  = Raise KeyError.
Proof.
  apply (proj2 (create_target_variable_raises_iff _ KeyError)).
  split; [reflexivity|]. eexists. split; [left; reflexivity | reflexivity].
Defined.




(** ** Loading and saving *)

Section LoadSave.

Import Features.

Lemma find_In {V : Type} (name : string) (l : list (string * V)) :
  In name (map fst l) -> exists v, Dict.find name l = Some v.
Proof.
  induction l as [|[n v] l IH]; simpl; [intros []|].
  destruct (String.eqb name n) eqn:E; [eexists; reflexivity|].
  intros [H|H]; [|exact (IH H)].
  apply String.eqb_neq in E. congruence.
Qed.

Lemma read_parquet_listed (d : OS.Disk) (path file : string)
    (dir : OS.Directory) :
  Dict.find path d = Some dir -> In file (map fst dir) ->
  (exists t, Dict.find file dir = Some (OS.Parquet t) /\
             OS.read_parquet d path file = Ok t) \/
  (Dict.find file dir = Some OS.Other /\
   OS.read_parquet d path file = Raise SourceError).
Proof.
  intros Hd Hin. unfold OS.read_parquet. rewrite Hd.
  destruct (find_In file dir Hin) as [[t|] ->].
  - left. exists t. auto.
  - right. auto.
Qed.

End LoadSave.

Lemma find_Some_In {V : Type} (name : string) (l : list (string * V)) (v : V) :
  Dict.find name l = Some v -> In name (map fst l).
Proof.
  induction l as [|[n v'] l IH]; simpl; [discriminate|].
  destruct (String.eqb name n) eqn:E.
  - apply String.eqb_eq in E. intros _. left. symmetry. exact E.
  - intros H. right. exact (IH H).
Qed.

Lemma Forall2_In_l {A B : Type} (P : A -> B -> Prop) (l : list A)
    (l' : list B) (a : A) :
  Forall2 P l l' -> In a l -> exists b, In b l' /\ P a b.
Proof.
  intros H. induction H as [|x y l l' Hxy _ IH]; intros Hin; [destruct Hin|].
  destruct Hin as [<-|Hin].
  - exists y. split; [left; reflexivity | exact Hxy].
  - destruct (IH Hin) as (b & Hb & Hab). exists b. split; [right|]; assumption.
Qed.

Lemma Forall2_In_r {A B : Type} (P : A -> B -> Prop) (l : list A)
    (l' : list B) (b : B) :
  Forall2 P l l' -> In b l' -> exists a, In a l /\ P a b.
Proof.
  intros H. induction H as [|x y l l' Hxy _ IH]; intros Hin; [destruct Hin|].
  destruct Hin as [<-|Hin].
  - exists x. split; [left; reflexivity | exact Hxy].
  - destruct (IH Hin) as (a & Ha & Hab). exists a. split; [right|]; assumption.
Qed.

(** What [load_raw_data] returns, case by case. *)
Lemma load_raw_data_cases (w : Features.World) :
  match Features.load_raw_data w with
  | Ok (_, w') =>
      Features.disk w' = Features.disk w /\
      exists dir tables,
        Dict.find Features.RAW_DATA_PATH (Features.disk w) = Some dir /\
        tables <> [] /\
        Forall2 (fun file t => Dict.find file dir = Some (OS.Parquet t))
          (filter (fun f => OS.endswith f ".parquet") (map fst dir)) tables /\
        Features.self_df w' = Some (List.concat tables)
  | Raise e =>
      (e = FileNotFoundError /\
       forall dir,
         Dict.find Features.RAW_DATA_PATH (Features.disk w) = Some dir ->
         filter (fun f => OS.endswith f ".parquet") (map fst dir) = []) \/
      (e = SourceError /\
       exists dir file,
         Dict.find Features.RAW_DATA_PATH (Features.disk w) = Some dir /\
         OS.endswith file ".parquet" = true /\
         Dict.find file dir = Some OS.Other)
  end.
Proof.
  rewrite load_raw_data_eq. unfold OS.listdir.
  destruct (Dict.find Features.RAW_DATA_PATH (Features.disk w)) as [dir|]
    eqn:Ed; [|left; split; [reflexivity | discriminate]].
  cbv zeta.
  destruct (filter (fun f => OS.endswith f ".parquet") (map fst dir))
    as [|f0 fs] eqn:Ef; simpl Ingest.is_empty; cbv iota.
  { left. split; [reflexivity|]. intros dir' H. injection H as <-. exact Ef. }
  rewrite <- Ef.
  assert (Hfiles : forall f,
             In f (filter (fun f => OS.endswith f ".parquet") (map fst dir)) ->
             In f (map fst dir) /\ OS.endswith f ".parquet" = true)
    by (intros f Hf; apply filter_In in Hf; exact Hf).
  destruct (mapM _ _) as [tables|e] eqn:Em.
  - cbn [Features.disk Features.self_df]. split; [reflexivity|].
    exists dir, tables. split; [reflexivity|].
    apply mapM_Ok in Em. split.
    { intros ->. rewrite Ef in Em. inversion Em. }
    split; [|reflexivity].
    revert Hfiles Em.
    generalize (filter (fun f => OS.endswith f ".parquet") (map fst dir)).
    intros files Hfiles Em.
    induction Em as [|f t files' tables' Hft _ IH]; constructor.
    + destruct (read_parquet_listed _ _ f dir Ed
                  (proj1 (Hfiles f (or_introl eq_refl))))
        as [(t' & Hfind & Hread)|[_ Hread]]; [|congruence].
      rewrite Hft in Hread. injection Hread as <-. exact Hfind.
    + apply IH. intros f' Hf'. apply Hfiles. right. exact Hf'.
  - apply mapM_Raise in Em. destruct Em as (f & Hf & Hread).
    destruct (Hfiles f Hf) as [Hin Hend].
    destruct (read_parquet_listed _ _ f dir Ed Hin)
      as [(t' & _ & Hread')|[Hfind Hread']]; [congruence|].
    right. rewrite Hread in Hread'. injection Hread' as ->.
    split; [reflexivity|]. exists dir, f. auto.
Qed.

(** X13.  When [load_raw_data] returns, the disk is as before and
    [self.df], whatever it held, is the concatenation, in the order of the
    directory listing, of the tables of the entries of the raw directory
    whose name ends in [.parquet].  It raises [FileNotFoundError] exactly
    when the directory is missing or has no such entry, the error of the
    reader exactly when such an entry is not a table, and nothing else. *)
Theorem load_raw_data_result (w : Features.World) :
  (forall u w',
     Features.load_raw_data w = Ok (u, w') ->
     Features.disk w' = Features.disk w /\
     exists dir tables,
       Dict.find Features.RAW_DATA_PATH (Features.disk w) = Some dir /\
       tables <> [] /\
       Forall2 (fun file t => Dict.find file dir = Some (OS.Parquet t))
         (filter (fun f => OS.endswith f ".parquet") (map fst dir)) tables /\
       Features.self_df w' = Some (List.concat tables)) /\
  (Features.load_raw_data w = Raise FileNotFoundError <->
   forall dir,
     Dict.find Features.RAW_DATA_PATH (Features.disk w) = Some dir ->
     filter (fun f => OS.endswith f ".parquet") (map fst dir) = []) /\
  (Features.load_raw_data w = Raise SourceError <->
   exists dir file,
     Dict.find Features.RAW_DATA_PATH (Features.disk w) = Some dir /\
     OS.endswith file ".parquet" = true /\
     Dict.find file dir = Some OS.Other) /\
  (forall e,
     Features.load_raw_data w = Raise e ->
     e = FileNotFoundError \/ e = SourceError).
Proof.
  pose proof (load_raw_data_cases w) as H.
  destruct (Features.load_raw_data w) as [[u0 w0]|e0].
  - destruct H as (Hdisk & dir & tables & Hdir & Hne & Hall & Hdf).
    split; [|split; [|split]].
    + intros u w' Heq. injection Heq as <- <-.
      split; [exact Hdisk|]. exists dir, tables. auto.
    + split; [discriminate|]. intros Hnone. exfalso.
      rewrite (Hnone dir Hdir) in Hall. inversion Hall. congruence.
    + split; [discriminate|].
      intros (dir' & file & Hdir' & Hend & Hother). exfalso.
      rewrite Hdir in Hdir'. injection Hdir' as <-.
      assert (Hin : In file (filter (fun f => OS.endswith f ".parquet")
                               (map fst dir))).
      { apply filter_In. split; [exact (find_Some_In _ _ _ Hother)|].
        exact Hend. }
      destruct (Forall2_In_l _ _ _ _ Hall Hin) as (t & _ & Hfind).
      congruence.
    + discriminate.
  - split; [discriminate|]. split; [|split].
    + split.
      * intros Heq. injection Heq as ->.
        destruct H as [[_ Hnone]|[Hbad _]]; [exact Hnone | discriminate].
      * intros Hnone.
        destruct H as [[-> _]|[-> (dir & file & Hdir & Hend & Hother)]];
          [reflexivity|]. exfalso.
        assert (Hin : In file (filter (fun f => OS.endswith f ".parquet")
                                 (map fst dir))).
        { apply filter_In. split; [exact (find_Some_In _ _ _ Hother)|].
          exact Hend. }
        rewrite (Hnone dir Hdir) in Hin. destruct Hin.
    + split.
      * intros Heq. injection Heq as ->.
        destruct H as [[Hbad _]|[_ Hex]]; [discriminate | exact Hex].
      * intros (dir & file & Hdir & Hend & Hother).
        destruct H as [[-> Hnone]|[-> _]]; [|reflexivity]. exfalso.
        assert (Hin : In file (filter (fun f => OS.endswith f ".parquet")
                                 (map fst dir))).
        { apply filter_In. split; [exact (find_Some_In _ _ _ Hother)|].
          exact Hend. }
        rewrite (Hnone dir Hdir) in Hin. destruct Hin.
    + intros e Heq. injection Heq as <-.
      destruct H as [[-> _]|[-> _]]; auto.
Qed.

Lemma load_raw_data_result_witness :
  exists w',
    Features.load_raw_data (Features.fresh Examples.raw_disk) = Ok (tt, w') /\
    Features.disk w' = Examples.raw_disk /\
    exists tables, Features.self_df w' = Some (List.concat tables).
Proof.
  destruct (Features.load_raw_data (Features.fresh Examples.raw_disk))
    as [[[] w']|e] eqn:E; [|vm_compute in E; discriminate E].
  destruct (load_raw_data_result (Features.fresh Examples.raw_disk))
    as [H _].
  destruct (H tt w' E) as (Hdisk & dir & tables & _ & _ & _ & Hdf).
  exists w'. split; [reflexivity|].
  split; [exact Hdisk|]. exists tables. exact Hdf.
Defined.

(** X14.  [save_processed_data] succeeds whenever [self.df] is set; the
    output file then holds that table, [self.df] is unchanged, every other
    directory of the disk is as before, and so is every other file of the
    output directory. *)
Theorem save_processed_data_frame (w : Features.World) (df : DataFrame) :
  Features.self_df w = Some df ->
  exists w',
    Features.save_processed_data w = Ok (tt, w') /\
    Features.self_df w' = Some df /\
    OS.read_parquet (Features.disk w') Features.PROCESSED_DATA_PATH
      Features.OUTPUT_FILE = Ok df /\
    (forall path,
       path <> Features.PROCESSED_DATA_PATH ->
       Dict.find path (Features.disk w') = Dict.find path (Features.disk w)) /\
    (forall dir file,
       Dict.find Features.PROCESSED_DATA_PATH (Features.disk w) = Some dir ->
       file <> Features.OUTPUT_FILE ->
       exists dir',
         Dict.find Features.PROCESSED_DATA_PATH (Features.disk w') = Some dir'
         /\ Dict.find file dir' = Dict.find file dir).
Proof.
  intros Hdf. rewrite save_processed_data_eq, Hdf. unfold OS.to_parquet.
  destruct (makedirs_find (Features.disk w) Features.PROCESSED_DATA_PATH)
    as [dir0 Hdir0].
  rewrite Hdir0. eexists. split; [reflexivity|].
  cbn [Features.self_df Features.disk]. split; [reflexivity|].
  split; [|split].
  - unfold OS.read_parquet. rewrite !find_put_same. reflexivity.
  - intros path Hne. rewrite find_put_other by exact Hne.
    apply makedirs_other. exact Hne.
  - intros dir file Hdir Hfile. eexists. split; [apply find_put_same|].
    rewrite find_put_other by exact Hfile.
    unfold OS.makedirs in Hdir0. rewrite Hdir in Hdir0.
    cbv iota in Hdir0. congruence.
Qed.

Lemma save_processed_data_frame_witness :
  exists w',
    Features.save_processed_data
      (Features.mkWorld (Some Examples.race_of_50) Examples.raw_disk [])
    = Ok (tt, w') /\
    Dict.find "data/raw"%string (Features.disk w')
    = Dict.find "data/raw"%string Examples.raw_disk.
Proof.
  destruct (save_processed_data_frame
              (Features.mkWorld (Some Examples.race_of_50) Examples.raw_disk [])
              Examples.race_of_50 eq_refl)
    as (w' & Hsave & _ & _ & Hother & _).
  exists w'. split; [exact Hsave|]. apply Hother. discriminate.
Defined.

(** ** Complete runs *)

Section RunMore.

Import Features.

Lemma run_on_disk_inv (d d2 : OS.Disk) (out : DataFrame)
    (entries : list LogMsg) :
  run_on_disk d = Ok (d2, out, entries) ->
  exists dir tables dropped removed df2 dir0,
    Dict.find RAW_DATA_PATH d = Some dir /\
    mapM (OS.read_parquet d RAW_DATA_PATH)
      (filter (fun f => OS.endswith f ".parquet") (map fst dir)) = Ok tables /\
    encode_physics_features_df (calculate_fuel_mass_df (List.concat tables))
    = (df2, dropped) /\
    create_target_variable_df df2 = Ok (out, removed) /\
    entries = run_log (filter (fun f => OS.endswith f ".parquet") (map fst dir))
                (List.concat tables) dropped removed out /\
    Dict.find PROCESSED_DATA_PATH (OS.makedirs d PROCESSED_DATA_PATH)
    = Some dir0 /\
    d2 = Dict.put PROCESSED_DATA_PATH
           (Dict.put OUTPUT_FILE (OS.Parquet out) dir0)
           (OS.makedirs d PROCESSED_DATA_PATH).
Proof.
  unfold run_on_disk, OS.listdir. intros H.
  destruct (Dict.find RAW_DATA_PATH d) as [dir|] eqn:Er; [|discriminate].
  cbv zeta in H. destruct (Ingest.is_empty _); [discriminate|].
  destruct (mapM _ _) as [tables|] eqn:Em; [|discriminate].
  destruct (encode_physics_features_df _) as [df2 dropped] eqn:Ee.
  destruct (create_target_variable_df df2) as [[out' removed]|] eqn:Ec;
    [|discriminate].
  unfold OS.to_parquet in H.
  destruct (Dict.find PROCESSED_DATA_PATH (OS.makedirs d PROCESSED_DATA_PATH))
    as [dir0|] eqn:Ed; [|discriminate].
  injection H as <- <- <-.
  exists dir, tables, dropped, removed, df2, dir0.
  repeat split; try reflexivity; assumption.
Qed.

End RunMore.



(** X16.  A run that succeeds writes the output file and nothing else:
    every directory other than the output directory, the raw directory
    among them, is as before, and so is every other file of the output
    directory. *)
Theorem run_keeps_other_files (w w1 : Features.World) :
  Features.run w = Ok (tt, w1) ->
  (forall path,
     path <> Features.PROCESSED_DATA_PATH ->
     Dict.find path (Features.disk w1) = Dict.find path (Features.disk w)) /\
  (forall dir file,
     Dict.find Features.PROCESSED_DATA_PATH (Features.disk w) = Some dir ->
     file <> Features.OUTPUT_FILE ->
     exists dir',
       Dict.find Features.PROCESSED_DATA_PATH (Features.disk w1) = Some dir'
       /\ Dict.find file dir' = Dict.find file dir).
Proof.
  rewrite run_eq.
  destruct (Features.run_on_disk (Features.disk w)) as [[[d2 out] entries]|e]
    eqn:E; [|discriminate].
  intros H. injection H as <-. cbn [Features.disk].
  destruct (run_on_disk_inv _ _ _ _ E)
    as (dir & tables & dropped & removed & df2 & dir0 & _ & _ & _ & _ & _
        & Hdir0 & ->).
  split.
  - intros path Hne. rewrite find_put_other by exact Hne.
    apply makedirs_other. exact Hne.
  - intros dir1 file Hdir Hfile. eexists. split; [apply find_put_same|].
    rewrite find_put_other by exact Hfile.
    unfold OS.makedirs in Hdir0. rewrite Hdir in Hdir0.
    cbv iota in Hdir0. congruence.
Qed.

Lemma run_keeps_other_files_witness :
  exists w1,
    Features.run (Features.fresh Examples.raw_disk) = Ok (tt, w1) /\
    Dict.find Features.RAW_DATA_PATH (Features.disk w1)
    = Dict.find Features.RAW_DATA_PATH Examples.raw_disk.
Proof.
  destruct (Features.run (Features.fresh Examples.raw_disk)) as [[[] w1]|e]
    eqn:E; [|vm_compute in E; discriminate E].
  exists w1. split; [reflexivity|].
  apply (proj1 (run_keeps_other_files _ _ E)). discriminate.
Defined.





(** ** The ingestion script *)

Section FileNames.

Import IngestScript.

Lemma length_append (s1 s2 : string) :
  String.length (s1 ++ s2) = (String.length s1 + String.length s2)%nat.
Proof. induction s1 as [|c s1 IH]; simpl; [|rewrite IH]; reflexivity. Qed.

Lemma append_assoc (s1 s2 s3 : string) :
  ((s1 ++ s2) ++ s3)%string = (s1 ++ (s2 ++ s3))%string.
Proof. induction s1 as [|c s1 IH]; simpl; [|rewrite IH]; reflexivity. Qed.

Lemma append_inj_r (s1 s2 t : string) :
  (s1 ++ t)%string = (s2 ++ t)%string -> s1 = s2.
Proof.
  revert s2. induction s1 as [|c s1 IH]; intros s2 H.
  - destruct s2 as [|c2 s2]; [reflexivity|]. exfalso.
    apply (f_equal String.length) in H. simpl in H.
    rewrite length_append in H. lia.
  - destruct s2 as [|c2 s2].
    + exfalso. apply (f_equal String.length) in H. simpl in H.
      rewrite length_append in H. lia.
    + simpl in H. injection H as -> H. f_equal. apply IH. exact H.
Qed.

Lemma to_int_not_nil (n : Z) :
  Z.to_int n <> Decimal.Pos Decimal.Nil /\
  Z.to_int n <> Decimal.Neg Decimal.Nil.
Proof.
  split; intros H; pose proof (f_equal Z.of_int H) as H';
    rewrite DecimalZ.of_to in H'; simpl in H'; subst n; discriminate H.
Qed.

Lemma str_inj (n m : Z) : str n = str m -> n = m.
Proof.
  unfold str. intros H.
  destruct (to_int_not_nil n) as [Hn1 Hn2].
  destruct (to_int_not_nil m) as [Hm1 Hm2].
  pose proof (NilZero.isi (Z.to_int n) Hn1 Hn2) as Hin.
  pose proof (NilZero.isi (Z.to_int m) Hm1 Hm2) as Him.
  rewrite H in Hin. rewrite Hin in Him. injection Him as Him.
  apply DecimalZ.to_int_inj. exact Him.
Qed.

Lemma substring_suffix (p s : string) :
  substring (String.length p) (String.length s) (p ++ s) = s.
Proof.
  induction p as [|c p IH]; simpl; [|exact IH].
  induction s as [|c s IHs]; simpl; [reflexivity|].
  destruct s; simpl in *; rewrite ?IHs; reflexivity.
Qed.

Lemma endswith_append (p s : string) : OS.endswith (p ++ s) s = true.
Proof.
  unfold OS.endswith. rewrite length_append.
  replace (String.length p + String.length s - String.length s)%nat
    with (String.length p) by lia.
  rewrite substring_suffix, String.eqb_refl, andb_true_r.
  apply Nat.leb_le. lia.
Qed.

End FileNames.

Lemma output_file_inj (y1 y2 : Z) :
  IngestScript.output_file y1 = IngestScript.output_file y2 -> y1 = y2.
Proof.
  unfold IngestScript.output_file. intros H. simpl in H. injection H as H.
  apply append_inj_r in H. apply str_inj. exact H.
Qed.

Lemma endswith_output_file (y : Z) :
  OS.endswith (IngestScript.output_file y) ".parquet" = true.
Proof.
  unfold IngestScript.output_file. rewrite <- append_assoc.
  apply endswith_append.
Qed.

(** X18.  The file names of the ingestion script tell the seasons apart
    and are names [load_raw_data] selects: two years with the same file
    name are equal, and every file name ends in [.parquet]. *)
Theorem output_file_names (y1 y2 : Z) :
  (IngestScript.output_file y1 = IngestScript.output_file y2 -> y1 = y2) /\
  OS.endswith (IngestScript.output_file y1) ".parquet" = true.
Proof.
  split; [apply output_file_inj | apply endswith_output_file].
Qed.

Lemma output_file_names_witness :
  (2022 = 2022)%Z /\
  OS.endswith (IngestScript.output_file 2022) ".parquet" = true.
Proof.
  destruct (output_file_names 2022 2022) as [Hinj Hend].
  split; [apply Hinj; reflexivity | exact Hend].
Defined.

Section IngestMain.

Import IngestScript.

Variable src : FastF1.Provider.

(** The raw directory after the loop over the years: a file is the table
    of a season of the loop, or it is as before and no season of the loop
    has its name. *)
Lemma ingest_years_spec :
  forall years d dir,
    Dict.find OUTPUT_DIR d = Some dir ->
    exists d' dir',
      ingest_years src years d = Ok d' /\
      Dict.find OUTPUT_DIR d' = Some dir' /\
      (forall path, path <> OUTPUT_DIR -> Dict.find path d' = Dict.find path d)
      /\
      (forall file,
         (exists y df,
            In y years /\ Ingest.process_season src y = Some df /\
            file = output_file y /\
            Dict.find file dir' = Some (OS.Parquet df)) \/
         ((forall y df, In y years -> Ingest.process_season src y = Some df ->
                        file <> output_file y) /\
          Dict.find file dir' = Dict.find file dir)).
Proof.
  induction years as [|y ys IH]; intros d dir Hd.
  - exists d, dir. split; [reflexivity|]. split; [exact Hd|].
    split; [reflexivity|]. intros file. right.
    split; [intros y df [] | reflexivity].
  - simpl. destruct (Ingest.process_season src y) as [df|] eqn:Eseason.
    + unfold OS.to_parquet. rewrite Hd.
      set (dir1 := Dict.put (output_file y) (OS.Parquet df) dir).
      set (d1 := Dict.put OUTPUT_DIR dir1 d).
      destruct (IH d1 dir1) as (d' & dir' & Hrun & Hd' & Hpaths & Hfiles).
      { unfold d1. apply find_put_same. }
      exists d', dir'. split; [exact Hrun|]. split; [exact Hd'|]. split.
      * intros path Hne. rewrite (Hpaths path Hne). unfold d1.
        apply find_put_other. exact Hne.
      * intros file.
        destruct (Hfiles file)
          as [(y' & df' & Hy' & Hs' & Hname & Hfind)|[Hnone Hfind]].
        -- left. exists y', df'. split; [right; exact Hy'|].
           split; [exact Hs'|]. split; [exact Hname | exact Hfind].
        -- destruct (String.eqb file (output_file y)) eqn:Efile.
           ++ apply String.eqb_eq in Efile. left. exists y, df.
              split; [left; reflexivity|]. split; [exact Eseason|].
              split; [exact Efile|]. rewrite Hfind, Efile. unfold dir1.
              apply find_put_same.
           ++ apply String.eqb_neq in Efile. right. split.
              ** intros y0 df0 [<-|Hy0] Hs0; [exact Efile|].
                 exact (Hnone y0 df0 Hy0 Hs0).
              ** rewrite Hfind. unfold dir1. apply find_put_other.
                 exact Efile.
    + destruct (IH d dir Hd) as (d' & dir' & Hrun & Hd' & Hpaths & Hfiles).
      exists d', dir'. split; [exact Hrun|]. split; [exact Hd'|].
      split; [exact Hpaths|]. intros file.
      destruct (Hfiles file)
        as [(y' & df' & Hy' & Hs' & Hname & Hfind)|[Hnone Hfind]].
      * left. exists y', df'. split; [right; exact Hy'|].
           split; [exact Hs'|]. split; [exact Hname | exact Hfind].
      * right. split; [|exact Hfind].
        intros y0 df0 [<-|Hy0] Hs0; [congruence|].
        exact (Hnone y0 df0 Hy0 Hs0).
Qed.

Lemma setup_directories_raw (d : OS.Disk) :
  exists dir0,
    Dict.find OUTPUT_DIR (setup_directories d) = Some dir0 /\
    (forall dir, Dict.find OUTPUT_DIR d = Some dir -> dir0 = dir) /\
    (Dict.find OUTPUT_DIR d = None -> dir0 = []) /\
    (forall path, path <> OUTPUT_DIR -> path <> CACHE_DIR ->
                  Dict.find path (setup_directories d) = Dict.find path d).
Proof.
  unfold setup_directories.
  assert (Hne : OUTPUT_DIR <> CACHE_DIR) by discriminate.
  pose proof (makedirs_other d CACHE_DIR OUTPUT_DIR Hne) as Hc.
  destruct (Dict.find OUTPUT_DIR d) as [dir|] eqn:Ed.
  - assert (Hs : OS.makedirs (OS.makedirs d CACHE_DIR) OUTPUT_DIR
                 = OS.makedirs d CACHE_DIR)
      by (unfold OS.makedirs at 1; rewrite Hc; reflexivity).
    rewrite Hs. exists dir. split; [exact Hc|].
    split; [intros dir' H; congruence|]. split; [discriminate|].
    intros path H1 H2. apply makedirs_other. exact H2.
  - assert (Hs : OS.makedirs (OS.makedirs d CACHE_DIR) OUTPUT_DIR
                 = Dict.put OUTPUT_DIR [] (OS.makedirs d CACHE_DIR))
      by (unfold OS.makedirs at 1; rewrite Hc; reflexivity).
    rewrite Hs. exists []. split; [apply find_put_same|].
    split; [discriminate|]. split; [reflexivity|]. intros path H1 H2.
    rewrite find_put_other by exact H1. apply makedirs_other. exact H2.
Qed.

(** The disk the [__main__] block leaves. *)
Lemma main_spec (d : OS.Disk) :
  exists d' dir0 dir',
    main src d = Ok d' /\
    Dict.find OUTPUT_DIR (setup_directories d) = Some dir0 /\
    Dict.find OUTPUT_DIR d' = Some dir' /\
    (forall path, path <> OUTPUT_DIR -> path <> CACHE_DIR ->
                  Dict.find path d' = Dict.find path d) /\
    (forall file,
       (exists y df,
          In y YEARS /\ Ingest.process_season src y = Some df /\
          file = output_file y /\
          Dict.find file dir' = Some (OS.Parquet df)) \/
       ((forall y df, In y YEARS -> Ingest.process_season src y = Some df ->
                      file <> output_file y) /\
        Dict.find file dir' = Dict.find file dir0)).
Proof.
  destruct (setup_directories_raw d) as (dir0 & Hdir0 & _ & _ & Hother).
  destruct (ingest_years_spec YEARS (setup_directories d) dir0 Hdir0)
    as (d' & dir' & Hrun & Hd' & Hpaths & Hfiles).
  exists d', dir0, dir'. split; [exact Hrun|]. split; [exact Hdir0|].
  split; [exact Hd'|]. split; [|exact Hfiles].
  intros path H1 H2. rewrite (Hpaths path H1). apply Hother; assumption.
Qed.

Lemma main_season_file (dir0 dir' : OS.Directory) (y : Z)
    (df : DataFrame) :
  (forall file,
     (exists y df,
        In y YEARS /\ Ingest.process_season src y = Some df /\
        file = output_file y /\
        Dict.find file dir' = Some (OS.Parquet df)) \/
     ((forall y df, In y YEARS -> Ingest.process_season src y = Some df ->
                    file <> output_file y) /\
      Dict.find file dir' = Dict.find file dir0)) ->
  In y YEARS -> Ingest.process_season src y = Some df ->
  Dict.find (output_file y) dir' = Some (OS.Parquet df).
Proof.
  intros Hfiles Hy Hs.
  destruct (Hfiles (output_file y))
    as [(y' & df' & _ & Hs' & Hname & Hfind)|[Hnone _]].
  - apply output_file_inj in Hname. subst y'. congruence.
  - exfalso. exact (Hnone y df Hy Hs eq_refl).
Qed.

End IngestMain.



(** X20.  The two scripts compose: after the ingestion script has run on
    a disk that had no raw directory, [load_raw_data] raises
    [FileNotFoundError] when no season of [YEARS] has data, and otherwise
    loads a table whose rows are exactly the rows of the tables of the
    seasons of [YEARS] that have data. *)
Theorem ingest_then_load (src : FastF1.Provider) (d d' : OS.Disk) :
  Dict.find IngestScript.OUTPUT_DIR d = None ->
  IngestScript.main src d = Ok d' ->
  match Features.load_raw_data (Features.fresh d') with
  | Ok (_, w') =>
      exists raw,
        Features.self_df w' = Some raw /\
        forall row,
          In row raw <->
          exists y df,
            In y IngestScript.YEARS /\
            Ingest.process_season src y = Some df /\ In row df
  | Raise e =>
      e = FileNotFoundError /\
      forall y, In y IngestScript.YEARS -> Ingest.process_season src y = None
  end.
Proof.
  intros Hnone Hmain.
  destruct (main_spec src d)
    as (d1 & dir0 & dir' & Hrun & Hdir0 & Hd' & _ & Hfiles).
  rewrite Hmain in Hrun. injection Hrun as <-.
  assert (Hempty : dir0 = []).
  { destruct (setup_directories_raw d) as (dir1 & Hdir1 & _ & Hnew & _).
    rewrite Hdir0 in Hdir1. injection Hdir1 as <-. exact (Hnew Hnone). }
  subst dir0.
  assert (Hlisted : forall file v,
             Dict.find file dir' = Some v ->
             exists y df,
               In y IngestScript.YEARS /\
               Ingest.process_season src y = Some df /\
               file = IngestScript.output_file y /\ v = OS.Parquet df).
  { intros file v Hv.
    destruct (Hfiles file) as [(y & df & Hy & Hs & Hname & Hfind)|[_ Hfind]].
    - exists y, df. repeat split; auto. congruence.
    - rewrite Hfind in Hv. discriminate. }
  pose proof (load_raw_data_cases (Features.fresh d')) as Hload.
  destruct (Features.load_raw_data (Features.fresh d')) as [[u w']|e].
  - destruct Hload as (_ & dir & tables & Hdir & _ & Hall & Hdf).
    cbn [Features.fresh Features.disk] in Hdir.
    change Features.RAW_DATA_PATH with IngestScript.OUTPUT_DIR in Hdir.
    rewrite Hd' in Hdir. injection Hdir as <-.
    exists (List.concat tables). split; [exact Hdf|]. intros row. split.
    + intros Hrow. apply in_concat in Hrow.
      destruct Hrow as (t & Ht & Hrow).
      destruct (Forall2_In_r _ _ _ t Hall Ht) as (file & _ & Hfind).
      destruct (Hlisted file _ Hfind) as (y & df & Hy & Hs & _ & Hv).
      injection Hv as ->. exists y, df. auto.
    + intros (y & df & Hy & Hs & Hrow).
      pose proof (main_season_file src [] dir' y df Hfiles Hy Hs) as Hfind.
      assert (Hin : In (IngestScript.output_file y)
                       (filter (fun f => OS.endswith f ".parquet")
                          (map fst dir'))).
      { apply filter_In. split; [exact (find_Some_In _ _ _ Hfind)|].
        apply endswith_output_file. }
      destruct (Forall2_In_l _ _ _ _ Hall Hin) as (t & Ht & Hfind').
      rewrite Hfind in Hfind'. injection Hfind' as <-.
      apply in_concat. exists df. auto.
  - cbn [Features.fresh Features.disk] in Hload.
    change Features.RAW_DATA_PATH with IngestScript.OUTPUT_DIR in Hload.
    destruct Hload as [[-> Hnofile]|[_ (dir & file & Hdir & _ & Hother)]].
    + split; [reflexivity|]. intros y Hy.
      destruct (Ingest.process_season src y) as [df|] eqn:Hs; [|reflexivity].
      pose proof (main_season_file src [] dir' y df Hfiles Hy Hs) as Hfind.
      assert (Hin : In (IngestScript.output_file y)
                       (filter (fun f => OS.endswith f ".parquet")
                          (map fst dir'))).
      { apply filter_In. split; [exact (find_Some_In _ _ _ Hfind)|].
        apply endswith_output_file. }
      rewrite (Hnofile dir' Hd') in Hin. destruct Hin.
    + rewrite Hd' in Hdir. injection Hdir as <-.
      destruct (Hlisted file _ Hother) as (y & df & _ & _ & _ & Hv).
      discriminate Hv.
Qed.

Lemma ingest_then_load_witness :
  exists d' w' raw,
    IngestScript.main Examples.one_race [] = Ok d' /\
    Features.load_raw_data (Features.fresh d') = Ok (tt, w') /\
    Features.self_df w' = Some raw.
Proof.
  destruct (IngestScript.main Examples.one_race []) as [d'|e] eqn:Em;
    [|vm_compute in Em; discriminate Em].
  pose proof (ingest_then_load Examples.one_race [] d' eq_refl Em) as H.
  destruct (Features.load_raw_data (Features.fresh d')) as [[[] w']|e] eqn:El.
  - destruct H as (raw & Hraw & _). exists d', w', raw. auto.
  - exfalso. destruct H as [_ Hall].
    specialize (Hall 2023%Z (or_intror (or_introl eq_refl))).
    vm_compute in Hall. discriminate Hall.
Defined.

(** ** Season tables through the feature engineering *)



